(** * Portal Synthetica backend: the product catalog and the Buddy assistant

    A shallow embedding of [main.py]: the catalog store with its data file
    ([load_products], [save_products]) and the text that is written to it
    and read from it, the CRUD handlers
    ([get_products], [get_product], [create_product], [update_product],
    [delete_product]), the context search [buscar_conteudo_relevante],
    the weather tool [get_weather] and the assistant handler
    [process_buddy_request], followed by the properties established
    about them. *)

From Stdlib Require Import ZArith NArith List Ascii String Floats Sorted Lia.
From Stdlib Require Import DecimalString DecimalZ.
From stdpp Require Import base option list.

Local Open Scope Z_scope.

(** ** Python strings

    A Python [str] is a sequence of Unicode code points. String literals of
    the source are written as Rocq strings (UTF-8 bytes in this file) and
    decoded by [u]. *)

Definition pystr : Type := list N.

Fixpoint utf8_decode (bs : list N) : pystr :=
  match bs with
  | [] => []
  | b :: r =>
      if (b <? 128)%N then b :: utf8_decode r
      else if (b <? 224)%N then
        match r with
        | b1 :: r' => ((b - 192) * 64 + (b1 - 128))%N :: utf8_decode r'
        | _ => []
        end
      else if (b <? 240)%N then
        match r with
        | b1 :: b2 :: r' =>
            ((b - 224) * 4096 + (b1 - 128) * 64 + (b2 - 128))%N :: utf8_decode r'
        | _ => []
        end
      else
        match r with
        | b1 :: b2 :: b3 :: r' =>
            ((b - 240) * 262144 + (b1 - 128) * 4096 + (b2 - 128) * 64 + (b3 - 128))%N
              :: utf8_decode r'
        | _ => []
        end
  end.

Definition u (s : string) : pystr :=
  utf8_decode (map N_of_ascii (list_ascii_of_string s)).

(** The code points [str.split()] treats as separators when called without
    an argument (the ones [str.isspace] accepts). *)
Definition isspace (c : N) : bool :=
  ((9 <=? c) && (c <=? 13) || (28 <=? c) && (c <=? 32)
   || (c =? 133) || (c =? 160) || (c =? 5760)
   || (8192 <=? c) && (c <=? 8202)
   || (c =? 8232) || (c =? 8233) || (c =? 8239) || (c =? 8287)
   || (c =? 12288))%N.

(** [s.split()]: the maximal runs of non-space code points, in order.
    [palavra] accumulates the current run, most recent code point first. *)
Fixpoint split_from (palavra : pystr) (s : pystr) : list pystr :=
  match s with
  | [] => match palavra with [] => [] | _ => [rev palavra] end
  | c :: r =>
      if isspace c then
        match palavra with
        | [] => split_from [] r
        | _ => rev palavra :: split_from [] r
        end
      else split_from (c :: palavra) r
  end.

Definition split (s : pystr) : list pystr := split_from [] s.

(** [s.startswith(p)] and [p in s] (substring test). *)
Fixpoint startswith (s p : pystr) {struct p} : bool :=
  match p, s with
  | [], _ => true
  | _ :: _, [] => false
  | a :: p', b :: s' => (a =? b)%N && startswith s' p'
  end.

Fixpoint str_in (p s : pystr) : bool :=
  startswith s p ||
  match s with
  | [] => false
  | _ :: s' => str_in p s'
  end.

(** [sep.join(parts)]. *)
Fixpoint join (sep : pystr) (parts : list pystr) : pystr :=
  match parts with
  | [] => []
  | [p] => p
  | p :: rest => p ++ sep ++ join sep rest
  end.

(** [s.replace(" ", "%20")]: the pattern is the single code point 32. *)
Definition replace_space (s : pystr) : pystr :=
  flat_map (fun c => if (c =? 32)%N then u "%20" else [c]) s.

(** The one-character string of a line feed. *)
Definition newline : pystr := [10%N].

(** Truth value of a string: [not s] holds for the empty string only. *)
Definition str_truthy (s : pystr) : bool :=
  match s with [] => false | _ => true end.

(** ** Exceptions and results

    [HTTPException] is a subclass of [Exception], as all the others are, so
    an [except Exception] clause catches every constructor below. *)

Inductive exception : Type :=
| HTTPException (status_code : Z) (detail : pystr)
| IndexError
| KeyError (key : pystr)
| AttributeError
| JSONDecodeError
| UnicodeEncodeError
| APIError (description : pystr).

Inductive result (A : Type) : Type :=
| Return (a : A)
| Raise (e : exception).
Arguments Return {A} a.
Arguments Raise {A} e.

(** ** Data model *)

Record Product : Type := {
  title : pystr;
  description : pystr;
  category : pystr;
  price : float;
  image : option pystr;
  brand : option pystr;
  model : option pystr;
  year : option Z
}.

(** [class ProductInDB(Product)]: the fields of [Product] and [id]. The
    dictionaries kept in [products_db] are [product.dict()] with the key
    ["id"] added, that is, exactly these fields. *)
Record ProductInDB : Type := {
  id : Z;
  product :> Product
}.

(** [product_dict = product.dict(); product_dict["id"] = n]. *)
Definition product_dict (p : Product) (n : Z) : ProductInDB :=
  {| id := n; product := p |}.

(** ** The data file

    What [json.load] finds in [products_data.json]: either the read or the
    parse raises (or the document is not a JSON object, so that [data.get]
    raises), or it yields an object whose keys ["products"] and ["counter"]
    may each be present or absent. The text and the bytes of the file,
    as [json.dump] writes them and [json.load] reads them, come further
    down ([dumped], [read_file]). *)

Inductive file : Type :=
| Unreadable
| Object (products : option (list ProductInDB)) (counter : option Z).

(** [os.path.exists(DATA_FILE)] is [false] on [None]. *)
Definition disk : Type := option file.

Definition load_products (d : disk) : list ProductInDB * Z :=
  match d with
  | Some (Object products counter) => (default [] products, default 1 counter)
  | Some Unreadable => ([], 1)
  | None => ([], 1)
  end.

(** How the attempt to write goes: the whole document is written, or
    [open] raises and the file stays as it was, or [json.dump] raises after
    [open] has truncated the file and leaves an incomplete document. In every
    case [save_products] catches the exception and returns normally. *)
Inductive write : Type :=
| Written
| OpenRaises
| DumpRaises.

Definition save_products (w : write) (products : list ProductInDB) (counter : Z)
    (d : disk) : disk :=
  match w with
  | Written => Some (Object (Some products) (Some counter))
  | OpenRaises => d
  | DumpRaises => Some Unreadable
  end.

(** ** Catalog store and CRUD handlers

    The module-level variables [products_db] and [product_id_counter],
    together with the data file, threaded through the handlers. *)

Record Store : Type := {
  products_db : list ProductInDB;
  product_id_counter : Z;
  data_file : disk
}.

Definition nao_encontrado : exception :=
  HTTPException 404 (u "Produto não encontrado").

Definition get_products (s : Store) : list ProductInDB := products_db s.

#[global] Instance id_eq_dec (product_id : Z) (p : ProductInDB) :
  Decision (id p = product_id) := Z.eq_dec (id p) product_id.

(** [for product in products_db: if product["id"] == product_id: return product]. *)
Fixpoint find_product (db : list ProductInDB) (product_id : Z) : result ProductInDB :=
  match db with
  | [] => Raise nao_encontrado
  | p :: rest =>
      if decide (id p = product_id) then Return p else find_product rest product_id
  end.

Definition get_product (product_id : Z) (s : Store) : result ProductInDB :=
  find_product (products_db s) product_id.

Definition create_product (w : write) (product : Product) (s : Store)
    : result ProductInDB * Store :=
  let product_dict := product_dict product (product_id_counter s) in
  let product_id_counter := product_id_counter s + 1 in
  let products_db := products_db s ++ [product_dict] in
  (Return product_dict,
   {| products_db := products_db;
      product_id_counter := product_id_counter;
      data_file := save_products w products_db product_id_counter (data_file s) |}).

(** [for i, p in enumerate(products_db): if p["id"] == product_id: ...]:
    the first index whose entry carries the identifier. *)
Definition update_product (w : write) (product_id : Z) (product : Product) (s : Store)
    : result ProductInDB * Store :=
  match list_find (fun p => id p = product_id) (products_db s) with
  | Some (i, _) =>
      let product_dict := product_dict product product_id in
      let products_db := <[i := product_dict]> (products_db s) in
      (Return product_dict,
       {| products_db := products_db;
          product_id_counter := product_id_counter s;
          data_file := save_products w products_db (product_id_counter s) (data_file s) |})
  | None => (Raise nao_encontrado, s)
  end.

Definition delete_product (w : write) (product_id : Z) (s : Store)
    : result pystr * Store :=
  match list_find (fun p => id p = product_id) (products_db s) with
  | Some (i, _) =>
      let products_db := delete i (products_db s) in
      (Return (u "Produto excluído com sucesso"),
       {| products_db := products_db;
          product_id_counter := product_id_counter s;
          data_file := save_products w products_db (product_id_counter s) (data_file s) |})
  | None => (Raise nao_encontrado, s)
  end.

(** A mutating request with the outcome of its write, what the handler
    answers, and the run of a sequence of requests from a store. *)
Inductive request : Type :=
| Create (product : Product)
| Update (product_id : Z) (product : Product)
| Delete (product_id : Z).

Inductive reply : Type :=
| Stored (p : ProductInDB)
| Message (m : pystr).

Definition handle (w : write) (r : request) (s : Store) : result reply * Store :=
  match r with
  | Create product =>
      let '(a, s') := create_product w product s in
      (match a with Return p => Return (Stored p) | Raise e => Raise e end, s')
  | Update product_id product =>
      let '(a, s') := update_product w product_id product s in
      (match a with Return p => Return (Stored p) | Raise e => Raise e end, s')
  | Delete product_id =>
      let '(a, s') := delete_product w product_id s in
      (match a with Return m => Return (Message m) | Raise e => Raise e end, s')
  end.

Fixpoint run (rs : list (write * request)) (s : Store)
    : list (request * result reply) * Store :=
  match rs with
  | [] => ([], s)
  | (w, r) :: rest =>
      let '(a, s1) := handle w r s in
      let '(trace, s2) := run rest s1 in
      ((r, a) :: trace, s2)
  end.

(** The identifiers handed out by the [create] requests of a trace. *)
Definition assigned (trace : list (request * result reply)) : list Z :=
  flat_map (fun ra =>
              match ra with
              | (Create _, Return (Stored p)) => [id p]
              | _ => []
              end) trace.

(** ** The assistant *)

(** A value of type [Any] in a history entry ([Dict[str, Any]]). *)
#[warnings="-register-all"]
Inductive Any : Type :=
| ANone
| ABool (b : bool)
| AInt (n : Z)
| AFloat (x : float)
| AStr (s : pystr)
| AList (l : list Any)
| ADict (d : list (pystr * Any)).

Record BuddyRequest : Type := {
  message : pystr;
  context : option pystr;
  history : option (list (list (pystr * Any)));
  voice_enabled : option bool
}.

(** The provider's reply message: its text and the tool calls it asks for. *)
Record ToolCall : Type := {
  tool_call_id : pystr;
  function_name : pystr;
  function_arguments : pystr
}.

Record ChatCompletionMessage : Type := {
  content : option pystr;
  tool_calls : option (list ToolCall)
}.

(** An element of the [messages] list sent to the provider. *)
Inductive chat_message : Type :=
| FromHistory (entry : list (pystr * Any))
| RoleContent (role content : pystr)
| ModelDump (m : ChatCompletionMessage)
| ToolResult (call_id content : pystr).

(** The declared tool: a function name with its required number parameters. *)
Record tool : Type := {
  tool_name : pystr;
  tool_required : list pystr
}.

Definition tools : list tool :=
  [ {| tool_name := u "get_weather";
       tool_required := [u "latitude"; u "longitude"] |} ].

(** Python built-ins the handler relies on and that are not part of the
    program: [str.lower], [str(x)] on a float and on an exception, and
    [json.loads] on the argument text of a tool call (an object of numbers,
    or a decoding error). *)
Class Builtins : Type := {
  lower : pystr -> pystr;
  str_float : float -> pystr;
  str_exception : exception -> pystr;
  json_loads : pystr -> result (list (pystr * float))
}.

(** The external collaborators: the completion provider, called with the
    messages and the tools (if any), which raises or returns the messages of
    its choices; and the weather service, [None] when the request or the
    reading of its answer raises. *)
Class Collaborators : Type := {
  chat_completions_create :
    list chat_message -> option (list tool) -> result (list ChatCompletionMessage);
  open_meteo : float -> float -> option float
}.

(** Calls made to the collaborators, in order. *)
Inductive event : Type :=
| Completion (messages : list chat_message) (with_tools : option (list tool))
| Forecast (latitude longitude : float).

(** Computations that log their calls and may raise. *)
Definition M (A : Type) : Type := list event * result A.

Definition ret {A} (a : A) : M A := ([], Return a).
Definition raise {A} (e : exception) : M A := ([], Raise e).
Definition call (ev : event) : M unit := ([ev], Return tt).

Definition bind {A B} (m : M A) (f : A -> M B) : M B :=
  match m with
  | (log, Return a) => let '(log', r) := f a in (log ++ log', r)
  | (log, Raise e) => (log, Raise e)
  end.

(** [try: body except Exception as e: handler]. *)
Definition try_except {A} (body : M A) (handler : exception -> M A) : M A :=
  match body with
  | (log, Raise e) => let '(log', r) := handler e in (log ++ log', r)
  | done => done
  end.

#[global] Instance M_ret : MRet M := @ret.
#[global] Instance M_bind : MBind M := fun A B f m => bind m f.

Definition lift {A} (r : result A) : M A := ([], r).

Definition base_conhecimento : list pystr :=
  [ u "A inteligência artificial tem revolucionado o mundo da arte generativa, permitindo a criação de obras únicas por meio de redes neurais.";
    u "Realidade aumentada e IA têm sido combinadas em experiências culturais imersivas, como exposições interativas em museus.";
    u "Avanços tecnológicos como computação quântica e IA simbólica estão moldando o futuro da criatividade artificial.";
    u "IA criativa pode colaborar com artistas, oferecendo sugestões de composição, paletas de cor ou até mesmo criando música original." ].

Definition nenhuma_informacao : pystr :=
  u "Nenhuma informação relevante encontrada.".

(** The content of the system message. *)
Definition persona : pystr :=
  u "Você é Buddy, um agente de IA do ano 2047 que recomenda conteúdos personalizados sobre arte, cultura e tecnologia.".

Record JSONResponse : Type := {
  response : option pystr;
  audio_url : option pystr
}.

(** A text that the UTF-8 codec accepts: none of its code points is a
    surrogate (U+D800 to U+DFFF). *)
Definition is_surrogate (c : N) : bool := ((55296 <=? c) && (c <=? 57343))%N.

Definition encodable (s : pystr) : bool :=
  forallb (fun c => negb (is_surrogate c)) s.

(** [JSONResponse(content={"response": resposta_final, "audio_url": audio_url})]:
    the response renders its body when it is built,
    [json.dumps(content, ensure_ascii=False, ...).encode("utf-8")], and the
    encoding raises when one of the two texts holds a surrogate. *)
Definition json_response (resposta_final audio_url : option pystr) : result JSONResponse :=
  if encodable (default [] resposta_final) && encodable (default [] audio_url)
  then Return {| response := resposta_final; audio_url := audio_url |}
  else Raise UnicodeEncodeError.

(** [d[key]] on the decoded arguments. *)
Fixpoint getitem (d : list (pystr * float)) (key : pystr) : result float :=
  match d with
  | [] => Raise (KeyError key)
  | (k, v) :: rest => if decide (k = key) then Return v else getitem rest key
  end.

(** [completion.choices[0].message]. *)
Definition first_choice (choices : list ChatCompletionMessage)
    : result ChatCompletionMessage :=
  match choices with
  | [] => Raise IndexError
  | m :: _ => Return m
  end.

Section Assistant.
Context `{Builtins} `{Collaborators}.

Definition buscar_conteudo_relevante (preferencia_usuario : pystr) : pystr :=
  let resultados :=
    filter (fun doc =>
              existsb (fun palavra => str_in (lower palavra) (lower doc))
                      (split preferencia_usuario))
           base_conhecimento in
  match resultados with
  | [] => nenhuma_informacao
  | _ => join newline resultados
  end.

Definition get_weather (latitude longitude : float) : M float :=
  call (Forecast latitude longitude);;
  ret (match open_meteo latitude longitude with
       | Some temperature => temperature
       | None => 25%float
       end).

(** The value of [context] after line 217: the supplied one, or the one
    searched for when none (or an empty one) was supplied. *)
Definition context_of (request : BuddyRequest) : pystr :=
  match context request with
  | Some (c :: cs) => c :: cs
  | _ => buscar_conteudo_relevante (message request)
  end.

(** The [messages] list before the first call to the provider. *)
Definition initial_messages (request : BuddyRequest) : list chat_message :=
  match history request with
  | Some (h :: hs) => map FromHistory (h :: hs)
  | _ =>
      [ RoleContent (u "system") persona;
        RoleContent (u "user")
          (u "Oi Buddy! " ++ message request ++ newline ++ newline
             ++ u "Contexto:" ++ newline ++ context_of request) ]
  end.

(** The [try] block of the handler (lines 207 to 278). *)
Definition buddy_try (request : BuddyRequest) : M JSONResponse :=
  let user_message := message request in
  let voice_enabled := voice_enabled request in
  (if str_truthy user_message then ret tt
   else raise (HTTPException 400 (u "Mensagem vazia")));;
  let messages := initial_messages request in
  call (Completion messages (Some tools));;
  choices ← lift (chat_completions_create messages (Some tools));
  response_message ← lift (first_choice choices);
  resposta_final ←
    match tool_calls response_message with
    | Some (tool_call :: _) =>
        args ← lift (json_loads (function_arguments tool_call));
        latitude ← lift (getitem args (u "latitude"));
        longitude ← lift (getitem args (u "longitude"));
        resultado ← get_weather latitude longitude;
        let messages :=
          messages ++ [ ModelDump response_message;
                        ToolResult (tool_call_id tool_call) (str_float resultado) ] in
        call (Completion messages None);;
        choices ← lift (chat_completions_create messages None);
        final_message ← lift (first_choice choices);
        ret (content final_message)
    | _ => ret (content response_message)
    end;
  audio_url ←
    match voice_enabled with
    | Some true =>
        match resposta_final with
        | Some text => ret (Some (u "/api/buddy/speech?text=" ++ replace_space text))
        | None => raise AttributeError
        end
    | _ => ret None
    end;
  lift (json_response resposta_final audio_url).

(** The handler: the [try] block under [except Exception as e: raise
    HTTPException(status_code=500, detail=str(e))] (lines 280 to 282). *)
Definition process_buddy_request (request : BuddyRequest) : M JSONResponse :=
  try_except (buddy_try request)
    (fun e => raise (HTTPException 500 (str_exception e))).

End Assistant.

(** ** Instances used to run the handlers on examples *)

(** [str.lower] on the code points below U+0100, which covers the knowledge
    base: A-Z and the capital letters of Latin-1 (U+00C0 to U+00DE, the
    multiplication sign U+00D7 apart) move up by 32. *)
Definition lower_latin1 (s : pystr) : pystr :=
  map (fun c =>
         if ((65 <=? c) && (c <=? 90)
             || (192 <=? c) && (c <=? 222) && negb (c =? 215))%N
         then (c + 32)%N else c) s.

(** The argument text [{"latitude": 0.0, "longitude": 0.0}]; code point 34
    is the double quote. *)
Definition coordinates_text : pystr :=
  u "{" ++ [34%N] ++ u "latitude" ++ [34%N] ++ u ": 0.0, "
    ++ [34%N] ++ u "longitude" ++ [34%N] ++ u ": 0.0}".

(** Built-ins for the examples: [lower_latin1]; [str(25.0)], the only float
    the examples print; the text of an [HTTPException] (status, colon,
    detail) and the description of a provider error, the other exceptions
    being given an empty text; and [json.loads] on [coordinates_text], any
    other text being rejected. *)
Definition example_builtins : Builtins :=
  {| lower := lower_latin1;
     str_float := fun _ => u "25.0";
     str_exception :=
       fun e =>
         match e with
         | APIError description => description
         | HTTPException status_code detail =>
             u (NilZero.string_of_int (Z.to_int status_code)) ++ u ": " ++ detail
         | _ => []
         end;
     json_loads :=
       fun text =>
         if bool_decide (text = coordinates_text)
         then Return [(u "latitude", 0%float); (u "longitude", 0%float)]
         else Raise JSONDecodeError |}.

(** A provider that always answers with the given text and asks for no
    tool, and a weather service that is down. *)
Definition answers (text : pystr) : Collaborators :=
  {| chat_completions_create :=
       fun _ _ => Return [ {| content := Some text; tool_calls := None |} ];
     open_meteo := fun _ _ => None |}.

(** A provider that asks for the weather tool whenever tools are declared,
    and otherwise answers with the given text while asking for the tool
    once more; the weather service is down. *)
Definition weather_call : ToolCall :=
  {| tool_call_id := u "call_1";
     function_name := u "get_weather";
     function_arguments := coordinates_text |}.


(** ** Properties stated on the model *)

(** The counter lies strictly above every identifier in the catalog. *)
Definition counter_above (s : Store) : Prop :=
  Forall (fun p => id p < product_id_counter s) (products_db s).

(** The reading of the context search by shared tokens: an entry is kept
    when one of its own whitespace-delimited tokens equals, ignoring case, a
    whitespace-delimited token of the user message. *)
Definition shares_token `{Builtins} (doc preferencia_usuario : pystr) : bool :=
  existsb (fun palavra =>
             existsb (fun token => bool_decide (lower token = lower palavra))
                     (split doc))
          (split preferencia_usuario).

Definition context_by_shared_tokens `{Builtins} (preferencia_usuario : pystr) : pystr :=
  match filter (fun doc => shares_token doc preferencia_usuario) base_conhecimento with
  | [] => nenhuma_informacao
  | resultados => join newline resultados
  end.

(** How the server reads a query value when the URL is fetched: the URL is
    sent as UTF-8; the query runs from the first "?" up to the first "#";
    its fields are separated by "&"; a field is [key=value]; in a key or a
    value "+" stands for a space and "%XY" for the byte with hexadecimal
    code XY; when several fields have the key, the last one counts. *)
Definition utf8_encode (s : pystr) : list N :=
  flat_map (fun c =>
              if (c <? 128)%N then [c]
              else if (c <? 2048)%N then [192 + c / 64; 128 + c mod 64]%N
              else if (c <? 65536)%N then
                [224 + c / 4096; 128 + (c / 64) mod 64; 128 + c mod 64]%N
              else
                [240 + c / 262144; 128 + (c / 4096) mod 64;
                 128 + (c / 64) mod 64; 128 + c mod 64]%N) s.

Fixpoint take_until (c : N) (s : list N) : list N :=
  match s with
  | [] => []
  | x :: r => if (x =? c)%N then [] else x :: take_until c r
  end.

Fixpoint drop_through (c : N) (s : list N) : option (list N) :=
  match s with
  | [] => None
  | x :: r => if (x =? c)%N then Some r else drop_through c r
  end.

Fixpoint fields_from (field : list N) (s : list N) : list (list N) :=
  match s with
  | [] => [rev field]
  | x :: r => if (x =? 38)%N then rev field :: fields_from [] r
              else fields_from (x :: field) r
  end.

Definition hex_digit (c : N) : option N :=
  if ((48 <=? c) && (c <=? 57))%N then Some (c - 48)%N
  else if ((65 <=? c) && (c <=? 70))%N then Some (c - 55)%N
  else if ((97 <=? c) && (c <=? 102))%N then Some (c - 87)%N
  else None.

Fixpoint unquote_plus (s : list N) : list N :=
  match s with
  | [] => []
  | x :: r =>
      if (x =? 43)%N then 32%N :: unquote_plus r
      else if (x =? 37)%N then
        match r with
        | h :: l :: r' =>
            match hex_digit h, hex_digit l with
            | Some a, Some b => (16 * a + b)%N :: unquote_plus r'
            | _, _ => x :: unquote_plus r
            end
        | _ => x :: unquote_plus r
        end
      else x :: unquote_plus r
  end.

Fixpoint field_value (key : list N) (fields : list (list N)) : option (list N) :=
  match fields with
  | [] => None
  | f :: rest =>
      match field_value key rest with
      | Some value => Some value
      | None =>
          if bool_decide (unquote_plus (take_until 61 f) = key)
          then Some (unquote_plus (default [] (drop_through 61 f)))
          else None
      end
  end.

Definition query_value (key url : pystr) : option pystr :=
  match drop_through 63 (utf8_encode url) with
  | None => None
  | Some rest =>
      utf8_decode <$> field_value (utf8_encode key) (fields_from [] (take_until 35 rest))
  end.

(** The property that [create] followed by [get] is asked to have, at one
    store and one product: the handler returns a stored product whose
    identifier no product of the catalog carried before, and [get_product] on
    that identifier then returns a product with the fields of the input. *)
Definition create_then_get_agree (w : write) (product : Product) (s : Store) : Prop :=
  ∃ stored : ProductInDB,
    (create_product w product s).1 = Return stored ∧
    (∀ p : ProductInDB, p ∈ products_db s → id p ≠ id stored) ∧
    ∃ found : ProductInDB,
      get_product (id stored) (create_product w product s).2 = Return found ∧
      title found = title product ∧ description found = description product ∧
      category found = category product ∧ price found = price product ∧
      image found = image product ∧ brand found = brand product ∧
      model found = model product ∧ year found = year product.

(** A product and the store read from a data file that lists it under the
    identifier 1 and has no ["counter"] key. *)
#[warnings="-inexact-float"]
Definition chip : Product :=
  {| title := u "NeuroSync v3";
     description := u "Chip com interface neural.";
     category := u "Neurotecnologia";
     price := 29999.9%float;
     image := Some (u "/static/image/chip.jpg");
     brand := Some (u "SynthTech");
     model := Some (u "NS-3000");
     year := Some 2023 |}.

#[warnings="-inexact-float"]
Definition roupa : Product :=
  {| title := u "ThermoFit Elite";
     description := u "Roupa inteligente com controle térmico.";
     category := u "Vestíveis";
     price := 12999.9%float;
     image := None;
     brand := Some (u "SynthWear");
     model := None;
     year := None |}.

Definition store_of (d : disk) : Store :=
  {| products_db := (load_products d).1;
     product_id_counter := (load_products d).2;
     data_file := d |}.

Definition file_without_counter : disk :=
  Some (Object (Some [product_dict chip 1]) None).

(** Requests to the assistant used in the examples. *)
Definition pedido (mensagem : pystr) (voz : bool) : BuddyRequest :=
  {| message := mensagem; context := None; history := None;
     voice_enabled := Some voz |}.

(** The catalog after two [create] requests on an empty store. *)
Definition two_products : Store :=
  {| products_db := [product_dict chip 1; product_dict roupa 2];
     product_id_counter := 3;
     data_file := None |}.

(** ** Start-up

    The examples added by [startup_event] when the catalog is empty; the
    loop gives each one the current counter as identifier, appends it and
    increments the counter; the catalog is saved after the loop. *)
#[warnings="-inexact-float"]
Definition example_products : list Product :=
  [ {| title := u "NeuroSync v3";
       description := u "Versão avançada do chip com interface neural, permite transferência de conhecimento em alta velocidade.";
       category := u "Neurotecnologia";
       price := 29999.90%float;
       image := Some (u "/static/image/chip.jpg");
       brand := Some (u "SynthTech");
       model := Some (u "NS-3000");
       year := Some 2023 |};
    {| title := u "HoloBuddy Pro";
       description := u "Companheiro holográfico com IA avançada, capaz de interagir com objetos físicos.";
       category := u "Holografia";
       price := 22999.90%float;
       image := Some (u "/static/image/buddy.jpg");
       brand := Some (u "HoloSynth");
       model := Some (u "HB-Pro");
       year := Some 2023 |};
    {| title := u "ThermoFit Elite";
       description := u "Roupa inteligente com controle térmico avançado e monitoramento de saúde em tempo real.";
       category := u "Vestíveis";
       price := 12999.90%float;
       image := Some (u "/static/image/roupa.jpg");
       brand := Some (u "SynthWear");
       model := Some (u "TF-Elite");
       year := Some 2023 |} ].

(** [for product in products: product["id"] = counter; products_db.append(product);
    counter += 1]. *)
Fixpoint append_with_ids (products : list Product) (db : list ProductInDB) (counter : Z)
    : list ProductInDB * Z :=
  match products with
  | [] => (db, counter)
  | product :: rest =>
      append_with_ids rest (db ++ [product_dict product counter]) (counter + 1)
  end.

Definition startup_event (w : write) (s : Store) : Store :=
  match products_db s with
  | [] =>
      let '(products_db, product_id_counter) :=
        append_with_ids example_products (products_db s) (product_id_counter s) in
      {| products_db := products_db;
         product_id_counter := product_id_counter;
         data_file := save_products w products_db product_id_counter (data_file s) |}
  | _ => s
  end.

(** The start of the process: the module is loaded, which reads the data
    file into the two variables, and the start-up event runs. *)
Definition start (w : write) (d : disk) : Store := startup_event w (store_of d).

(** No two products of the catalog carry the same identifier. *)
Definition unique_ids (s : Store) : Prop := NoDup (id <$> products_db s).

(** The data file loads as the catalog in memory. *)
Definition in_sync (s : Store) : Prop :=
  load_products (data_file s) = (products_db s, product_id_counter s).

(** The identifier a request is about: the one [create] is going to assign,
    or the one given to [update] or [delete]. *)
Definition target (r : request) (s : Store) : Z :=
  match r with
  | Create _ => product_id_counter s
  | Update product_id _ => product_id
  | Delete product_id => product_id
  end.

(** Further collaborators for the examples: a provider that raises, one
    that answers with no text and no tool call, and one that asks for the
    weather tool with the given argument text; the weather service is down. *)
Definition provider_down (e : exception) : Collaborators :=
  {| chat_completions_create := fun _ _ => Raise e;
     open_meteo := fun _ _ => None |}.

Definition answers_nothing : Collaborators :=
  {| chat_completions_create :=
       fun _ _ => Return [ {| content := None; tool_calls := Some [] |} ];
     open_meteo := fun _ _ => None |}.

Definition asks_with_arguments (arguments : pystr) : Collaborators :=
  {| chat_completions_create :=
       fun _ _ =>
         Return [ {| content := None;
                     tool_calls :=
                       Some [ {| tool_call_id := u "call_1";
                                 function_name := u "get_weather";
                                 function_arguments := arguments |} ] |} ];
     open_meteo := fun _ _ => None |}.

(** A provider that asks for the weather tool when tools are declared and
    raises at the submission that follows. *)
Definition fails_at_follow_up (e : exception) : Collaborators :=
  {| chat_completions_create :=
       fun _ with_tools =>
         match with_tools with
         | Some _ => Return [ {| content := None; tool_calls := Some [weather_call] |} ]
         | None => Raise e
         end;
     open_meteo := fun _ _ => None |}.

(** What the [except] clause makes of a result of the [try] block. *)
Definition as_500 `{Builtins} {A} (r : result A) : result A :=
  match r with
  | Return a => Return a
  | Raise e => Raise (HTTPException 500 (str_exception e))
  end.

(** What the handler answers once the final text is known (lines 273 to
    278 of the source, under the [except] clause of the handler): the
    reference is built when voice is enabled, which raises on a null text,
    and the response is built, which raises on a text with a surrogate. *)
Definition answer_with `{Builtins} (request : BuddyRequest) (resposta_final : option pystr)
    : result JSONResponse :=
  match voice_enabled request, resposta_final with
  | Some true, Some text =>
      as_500 (json_response (Some text)
                (Some (u "/api/buddy/speech?text=" ++ replace_space text)))
  | Some true, None => as_500 (Raise AttributeError)
  | _, _ => as_500 (json_response resposta_final None)
  end.

(** The test that [buscar_conteudo_relevante] applies to an entry of the
    knowledge base: [any(palavra.lower() in doc.lower() for palavra in
    preferencia_usuario.split())]. *)
Definition relevant `{Builtins} (preferencia_usuario doc : pystr) : bool :=
  existsb (fun palavra => str_in (lower palavra) (lower doc))
          (split preferencia_usuario).

(** Code points that a URL carries as they are and that mean nothing in a
    query string: no control character, none of [#], [%], [&] and [+], no
    surrogate, nothing beyond U+10FFFF. *)
Definition plain (c : N) : bool :=
  ((32 <=? c) && (c <? 1114112)
   && negb ((c =? 35) || (c =? 37) || (c =? 38) || (c =? 43))
   && negb ((55296 <=? c) && (c <=? 57343)))%N.

(** A request with a one-entry history. *)
Definition pedido_com_historico (mensagem : pystr) (contexto : option pystr)
    : BuddyRequest :=
  {| message := mensagem;
     context := contexto;
     history := Some [ [ (u "role", AStr (u "user")); (u "content", AStr (u "Oi")) ] ];
     voice_enabled := None |}.

(** ** The text of the data file

    [json.dump(..., ensure_ascii=False, indent=2)] into a file opened with
    [encoding="utf-8"], and [json.load] from such a file, on Python values:
    the dictionaries kept in [products_db] and the document made of them.
    The texts of floats are those of Python ([repr], and the three names
    of the values that are not finite) and are not computed here. *)

(** The text [json.dump] writes for a float, and the float [json.load]
    reads from a number with a fraction or an exponent or from [NaN],
    [Infinity] or [-Infinity] ([None] on any other text). *)
Class JsonFloats : Type := {
  float_text : float -> pystr;
  float_of_text : pystr -> option float
}.

(** Decimal digits, most significant first. *)
Fixpoint uint_text (d : Decimal.uint) : pystr :=
  match d with
  | Decimal.Nil => []
  | Decimal.D0 d => 48%N :: uint_text d
  | Decimal.D1 d => 49%N :: uint_text d
  | Decimal.D2 d => 50%N :: uint_text d
  | Decimal.D3 d => 51%N :: uint_text d
  | Decimal.D4 d => 52%N :: uint_text d
  | Decimal.D5 d => 53%N :: uint_text d
  | Decimal.D6 d => 54%N :: uint_text d
  | Decimal.D7 d => 55%N :: uint_text d
  | Decimal.D8 d => 56%N :: uint_text d
  | Decimal.D9 d => 57%N :: uint_text d
  end.

Fixpoint uint_of_text (t : pystr) : option Decimal.uint :=
  match t with
  | [] => Some Decimal.Nil
  | c :: r =>
      match uint_of_text r with
      | None => None
      | Some d =>
          if (c =? 48)%N then Some (Decimal.D0 d)
          else if (c =? 49)%N then Some (Decimal.D1 d)
          else if (c =? 50)%N then Some (Decimal.D2 d)
          else if (c =? 51)%N then Some (Decimal.D3 d)
          else if (c =? 52)%N then Some (Decimal.D4 d)
          else if (c =? 53)%N then Some (Decimal.D5 d)
          else if (c =? 54)%N then Some (Decimal.D6 d)
          else if (c =? 55)%N then Some (Decimal.D7 d)
          else if (c =? 56)%N then Some (Decimal.D8 d)
          else if (c =? 57)%N then Some (Decimal.D9 d)
          else None
      end
  end.

(** [int.__repr__]. *)
Definition int_text (n : Z) : pystr :=
  match Z.to_int n with
  | Decimal.Pos d => uint_text d
  | Decimal.Neg d => 45%N :: uint_text d
  end.

(** Python converts an integer to a text, and a text to an integer, when
    the digits are no more than [sys.get_int_max_str_digits()], and raises
    [ValueError] otherwise; 4300 is the value the interpreter starts with. *)
Definition int_max_str_digits : nat := 4300.

Definition convertible (n : Z) : bool :=
  match Z.to_int n with
  | Decimal.Pos d | Decimal.Neg d => (length (uint_text d) <=? int_max_str_digits)%nat
  end.

(** The digits of a JSON integer: [0], or a digit other than 0 followed by
    digits. *)
Definition json_digits (t : pystr) : option Decimal.uint :=
  if (length t <=? int_max_str_digits)%nat then
    match uint_of_text t with
    | Some d => if Decimal.uint_eq_dec (Decimal.unorm d) d then Some d else None
    | None => None
    end
  else None.

(** The integer read from a JSON number without fraction nor exponent. *)
Definition int_of_text (t : pystr) : option Z :=
  match t with
  | c :: digits =>
      if (c =? 45)%N then (fun d => Z.of_int (Decimal.Neg d)) <$> json_digits digits
      else (fun d => Z.of_int (Decimal.Pos d)) <$> json_digits t
  | [] => None
  end.

(** What a string becomes between its quotes: the quote, the backslash and
    the control characters are escaped, every other code point stands as it
    is ([ensure_ascii=False]). *)
Definition hex_char (d : N) : N := if (d <? 10)%N then (48 + d)%N else (87 + d)%N.

Definition escape (c : N) : pystr :=
  if (c =? 34)%N then [92; 34]%N
  else if (c =? 92)%N then [92; 92]%N
  else if (c =? 10)%N then [92; 110]%N
  else if (c =? 13)%N then [92; 114]%N
  else if (c =? 9)%N then [92; 116]%N
  else if (c =? 8)%N then [92; 98]%N
  else if (c =? 12)%N then [92; 102]%N
  else if (c <? 32)%N then [92; 117; 48; 48; hex_char (c / 16); hex_char (c mod 16)]%N
  else [c].

Definition str_text (s : pystr) : pystr := [34%N] ++ flat_map escape s ++ [34%N].

(** A line feed and two spaces for each level of nesting. *)
Definition line (level : nat) : pystr := newline ++ repeat 32%N (2 * level).

(** [json.dumps(v, ensure_ascii=False, indent=2)], at a level of nesting. *)
Section Dumps.
Context `{JsonFloats}.

Fixpoint dumps (level : nat) (v : Any) : pystr :=
  match v with
  | ANone => u "null"
  | ABool true => u "true"
  | ABool false => u "false"
  | AInt n => int_text n
  | AFloat x => float_text x
  | AStr s => str_text s
  | AList [] => u "[]"
  | AList items =>
      u "[" ++ line (S level)
        ++ join (u "," ++ line (S level)) (map (dumps (S level)) items)
        ++ line level ++ u "]"
  | ADict [] => u "{}"
  | ADict members =>
      u "{" ++ line (S level)
        ++ join (u "," ++ line (S level))
             (map (fun kv => str_text kv.1 ++ u ": " ++ dumps (S level) kv.2) members)
        ++ line level ++ u "}"
  end.

End Dumps.

(** The dictionary that stands for a product in [products_db]:
    [product.dict()] with the key ["id"] added. *)
Definition optional {A} (f : A -> Any) (o : option A) : Any :=
  match o with Some a => f a | None => ANone end.

Definition as_dict (p : ProductInDB) : Any :=
  ADict [ (u "title", AStr (title p));
          (u "description", AStr (description p));
          (u "category", AStr (category p));
          (u "price", AFloat (price p));
          (u "image", optional AStr (image p));
          (u "brand", optional AStr (brand p));
          (u "model", optional AStr (model p));
          (u "year", optional AInt (year p));
          (u "id", AInt (id p)) ].

(** [{"products": products, "counter": counter}]. *)
Definition document (products : list ProductInDB) (counter : Z) : Any :=
  ADict [ (u "products", AList (map as_dict products)); (u "counter", AInt counter) ].

(** Writing a text to a file opened with [encoding="utf-8"]: the bytes, or
    the error of the codec when the text holds a surrogate. *)
Definition encode_utf8 (text : pystr) : result (list N) :=
  if encodable text then Return (utf8_encode text) else Raise UnicodeEncodeError.

(** The integers of a value. *)
Fixpoint ints_in (v : Any) : list Z :=
  match v with
  | AInt n => [n]
  | AList items => flat_map ints_in items
  | ADict members => flat_map (fun kv => ints_in kv.2) members
  | _ => []
  end.

(** The bytes [json.dump] in [save_products] writes; [None] when it
    raises, on an integer of too many digits or on a surrogate. *)
Definition dumped `{JsonFloats} (products : list ProductInDB) (counter : Z)
    : option (list N) :=
  if forallb convertible (ints_in (document products counter)) then
    match encode_utf8 (dumps 0 (document products counter)) with
    | Return bytes => Some bytes
    | Raise _ => None
    end
  else None.

(** How the write of [save_products] goes when the file can be opened and
    written to: [json.dump] may still raise. *)
Definition write_of `{JsonFloats} (products : list ProductInDB) (counter : Z) : write :=
  match dumped products counter with
  | Some _ => Written
  | None => DumpRaises
  end.

(** Reading a file opened with [encoding="utf-8"]: the text, or [None] when
    the bytes are not UTF-8 (a stray or missing continuation byte, an
    overlong form, a surrogate, a value beyond U+10FFFF). *)
Definition continuation (b : N) : bool := ((128 <=? b) && (b <=? 191))%N.

Fixpoint decode_utf8 (bs : list N) : option pystr :=
  match bs with
  | [] => Some []
  | b :: r =>
      if (b <? 128)%N then cons b <$> decode_utf8 r
      else if ((194 <=? b) && (b <=? 223))%N then
        match r with
        | b1 :: r' =>
            if continuation b1
            then cons ((b - 192) * 64 + (b1 - 128))%N <$> decode_utf8 r'
            else None
        | _ => None
        end
      else if ((224 <=? b) && (b <=? 239))%N then
        match r with
        | b1 :: b2 :: r' =>
            let c := ((b - 224) * 4096 + (b1 - 128) * 64 + (b2 - 128))%N in
            if continuation b1 && continuation b2 && (2048 <=? c)%N
               && negb (is_surrogate c)
            then cons c <$> decode_utf8 r'
            else None
        | _ => None
        end
      else if ((240 <=? b) && (b <=? 244))%N then
        match r with
        | b1 :: b2 :: b3 :: r' =>
            let c := ((b - 240) * 262144 + (b1 - 128) * 4096
                      + (b2 - 128) * 64 + (b3 - 128))%N in
            if continuation b1 && continuation b2 && continuation b3
               && (65536 <=? c)%N && (c <? 1114112)%N
            then cons c <$> decode_utf8 r'
            else None
        | _ => None
        end
      else None
  end.

(** The pieces of a JSON text: punctuation, strings with their escapes
    resolved, and the runs of other characters (numbers and names). *)
Inductive token : Type :=
| LBrace | RBrace | LBracket | RBracket | Colon | Comma
| Str (s : pystr)
| Scalar (t : pystr).

Definition is_space (c : N) : bool :=
  ((c =? 32) || (c =? 9) || (c =? 10) || (c =? 13))%N.

Definition punctuation (c : N) : option token :=
  if (c =? 123)%N then Some LBrace
  else if (c =? 125)%N then Some RBrace
  else if (c =? 91)%N then Some LBracket
  else if (c =? 93)%N then Some RBracket
  else if (c =? 58)%N then Some Colon
  else if (c =? 44)%N then Some Comma
  else None.

(** The character after a backslash, [u] apart. *)
Definition unescape (c : N) : option N :=
  if (c =? 34)%N then Some 34%N
  else if (c =? 92)%N then Some 92%N
  else if (c =? 47)%N then Some 47%N
  else if (c =? 98)%N then Some 8%N
  else if (c =? 102)%N then Some 12%N
  else if (c =? 110)%N then Some 10%N
  else if (c =? 114)%N then Some 13%N
  else if (c =? 116)%N then Some 9%N
  else None.

(** A [\uXXXX] escape adds its code point to the string read so far (last
    code point first); a low surrogate that follows a high one makes one
    code point with it. Surrogates come from escapes only: a decoded file
    holds none. *)
Definition add_escaped (c : N) (rev_text : pystr) : pystr :=
  match rev_text with
  | high :: rest =>
      if ((55296 <=? high) && (high <=? 56319) && (56320 <=? c) && (c <=? 57343))%N
      then (65536 + (high - 55296) * 1024 + (c - 56320))%N :: rest
      else c :: rev_text
  | [] => [c]
  end.

Inductive lexer : Type :=
| Between
| InScalar (rev_text : pystr)
| InString (rev_text : pystr)
| AfterBackslash (rev_text : pystr)
| InHex (rev_text : pystr) (digits : list N).

Definition push (t : token) (ts : option (list token)) : option (list token) :=
  cons t <$> ts.

Fixpoint tokens (state : lexer) (text : pystr) : option (list token) :=
  match text with
  | [] =>
      match state with
      | Between => Some []
      | InScalar rev_text => Some [Scalar (rev rev_text)]
      | _ => None
      end
  | c :: r =>
      match state with
      | Between =>
          if is_space c then tokens Between r
          else match punctuation c with
               | Some t => push t (tokens Between r)
               | None =>
                   if (c =? 34)%N then tokens (InString []) r
                   else tokens (InScalar [c]) r
               end
      | InScalar rev_text =>
          if is_space c then push (Scalar (rev rev_text)) (tokens Between r)
          else match punctuation c with
               | Some t => push (Scalar (rev rev_text)) (push t (tokens Between r))
               | None =>
                   if (c =? 34)%N
                   then push (Scalar (rev rev_text)) (tokens (InString []) r)
                   else tokens (InScalar (c :: rev_text)) r
               end
      | InString rev_text =>
          if (c =? 34)%N then push (Str (rev rev_text)) (tokens Between r)
          else if (c =? 92)%N then tokens (AfterBackslash rev_text) r
          else if (c <? 32)%N then None
          else tokens (InString (c :: rev_text)) r
      | AfterBackslash rev_text =>
          if (c =? 117)%N then tokens (InHex rev_text []) r
          else match unescape c with
               | Some x => tokens (InString (x :: rev_text)) r
               | None => None
               end
      | InHex rev_text digits =>
          match hex_digit c with
          | None => None
          | Some d =>
              match digits with
              | [d1; d2; d3] =>
                  tokens (InString
                            (add_escaped (4096 * d1 + 256 * d2 + 16 * d3 + d)%N rev_text)) r
              | _ => tokens (InHex rev_text (digits ++ [d])) r
              end
          end
      end
  end.

(** The value of a run of characters: a name, an integer, or a float. *)
Definition scalar `{JsonFloats} (t : pystr) : option Any :=
  if bool_decide (t = u "null") then Some ANone
  else if bool_decide (t = u "true") then Some (ABool true)
  else if bool_decide (t = u "false") then Some (ABool false)
  else match int_of_text t with
       | Some n => Some (AInt n)
       | None => AFloat <$> float_of_text t
       end.

(** The containers that are open, innermost first, with what they hold so
    far (last element first) and, for an object, the key whose value is
    awaited; and what may come next. *)
Inductive frame : Type :=
| InArray (rev_items : list Any)
| InObject (rev_members : list (pystr * Any)) (key : option pystr).

Inductive position : Type :=
| Value (first : bool)
| Key (first : bool)
| ColonNext
| Separator
| Complete (v : Any).

(** A value is complete: it is the document, or goes into the innermost
    open container. *)
Definition deliver (v : Any) (open : list frame) : option (list frame * position) :=
  match open with
  | [] => Some ([], Complete v)
  | InArray rev_items :: outer => Some (InArray (v :: rev_items) :: outer, Separator)
  | InObject rev_members (Some key) :: outer =>
      Some (InObject ((key, v) :: rev_members) None :: outer, Separator)
  | InObject _ None :: _ => None
  end.

Definition step `{JsonFloats} (open : list frame) (p : position) (t : token)
    : option (list frame * position) :=
  match p, t with
  | Value _, Str s => deliver (AStr s) open
  | Value _, Scalar text =>
      match scalar text with Some v => deliver v open | None => None end
  | Value _, LBracket => Some (InArray [] :: open, Value true)
  | Value _, LBrace => Some (InObject [] None :: open, Key true)
  | Value true, RBracket =>
      match open with
      | InArray [] :: outer => deliver (AList []) outer
      | _ => None
      end
  | Key _, Str k =>
      match open with
      | InObject rev_members None :: outer =>
          Some (InObject rev_members (Some k) :: outer, ColonNext)
      | _ => None
      end
  | Key true, RBrace =>
      match open with
      | InObject [] None :: outer => deliver (ADict []) outer
      | _ => None
      end
  | ColonNext, Colon => Some (open, Value false)
  | Separator, Comma =>
      match open with
      | InArray _ :: _ => Some (open, Value false)
      | InObject _ None :: _ => Some (open, Key false)
      | _ => None
      end
  | Separator, RBracket =>
      match open with
      | InArray rev_items :: outer => deliver (AList (rev rev_items)) outer
      | _ => None
      end
  | Separator, RBrace =>
      match open with
      | InObject rev_members None :: outer => deliver (ADict (rev rev_members)) outer
      | _ => None
      end
  | _, _ => None
  end.

Fixpoint parse `{JsonFloats} (open : list frame) (p : position) (ts : list token)
    : option Any :=
  match ts with
  | [] => match p with Complete v => Some v | _ => None end
  | t :: r =>
      match step open p t with
      | Some (open', p') => parse open' p' r
      | None => None
      end
  end.

(** [json.loads]: [None] when the text is not a JSON document. *)
Definition loads `{JsonFloats} (text : pystr) : option Any :=
  match tokens Between text with
  | Some ts => parse [] (Value false) ts
  | None => None
  end.

(** [d.get(key)]: a dictionary read from a text that repeats a key holds
    the last of its values. *)
Fixpoint dict_get (key : pystr) (d : list (pystr * Any)) : option Any :=
  match d with
  | [] => None
  | (k, v) :: rest =>
      match dict_get key rest with
      | Some later => Some later
      | None => if bool_decide (k = key) then Some v else None
      end
  end.

(** The product that a dictionary stands for: it has the nine keys and no
    other, with values of the types of [ProductInDB]. *)
Definition product_keys : list pystr :=
  [ u "title"; u "description"; u "category"; u "price"; u "image";
    u "brand"; u "model"; u "year"; u "id" ].

Definition as_str (v : Any) : option pystr :=
  match v with AStr s => Some s | _ => None end.
Definition as_optional_str (v : Any) : option (option pystr) :=
  match v with AStr s => Some (Some s) | ANone => Some None | _ => None end.
Definition as_int (v : Any) : option Z :=
  match v with AInt n => Some n | _ => None end.
Definition as_optional_int (v : Any) : option (option Z) :=
  match v with AInt n => Some (Some n) | ANone => Some None | _ => None end.
Definition as_float (v : Any) : option float :=
  match v with AFloat x => Some x | _ => None end.

Definition of_dict (v : Any) : option ProductInDB :=
  match v with
  | ADict d =>
      if forallb (fun kv => bool_decide (kv.1 ∈ product_keys)) d then
        title ← dict_get (u "title") d ≫= as_str;
        description ← dict_get (u "description") d ≫= as_str;
        category ← dict_get (u "category") d ≫= as_str;
        price ← dict_get (u "price") d ≫= as_float;
        image ← dict_get (u "image") d ≫= as_optional_str;
        brand ← dict_get (u "brand") d ≫= as_optional_str;
        model ← dict_get (u "model") d ≫= as_optional_str;
        year ← dict_get (u "year") d ≫= as_optional_int;
        id ← dict_get (u "id") d ≫= as_int;
        Some {| id := id;
                product := {| title := title; description := description;
                              category := category; price := price;
                              image := image; brand := brand; model := model;
                              year := year |} |}
      else None
  | _ => None
  end.

(** What [load_products] finds in a document, in the terms of [file]:
    anything but a dictionary makes [data.get] raise; in a dictionary the
    two keys are looked up. [None] when the values found are not a list of
    products and an integer, which [file] has no room for. *)
Definition file_of (v : Any) : option file :=
  match v with
  | ADict d =>
      products ←
        match dict_get (u "products") d with
        | None => Some None
        | Some (AList items) => Some <$> mapM of_dict items
        | Some _ => None
        end;
      counter ←
        match dict_get (u "counter") d with
        | None => Some None
        | Some (AInt n) => Some (Some n)
        | Some _ => None
        end;
      Some (Object products counter)
  | _ => Some Unreadable
  end.

(** The data file with the given bytes, as [load_products] finds it. *)
Definition read_file `{JsonFloats} (bytes : list N) : option file :=
  match decode_utf8 bytes with
  | None => Some Unreadable
  | Some text =>
      match loads text with
      | None => Some Unreadable
      | Some v => file_of v
      end
  end.

(** The float round trip that Python provides, for one float: its text is
    a run of ASCII characters that ends at the next space, punctuation mark
    or quote, and reads as that float. *)
Definition in_scalar (c : N) : bool :=
  match punctuation c with
  | Some _ => false
  | None => negb (is_space c) && negb (c =? 34)%N
  end.

Definition float_round_trip `{JsonFloats} (x : float) : Prop :=
  float_text x ≠ [] ∧ forallb in_scalar (float_text x) = true
  ∧ forallb (fun c => c <? 128)%N (float_text x) = true
  ∧ scalar (float_text x) = Some (AFloat x).

(** The floats of a value, and the values whose floats all have the round
    trip and whose integers Python converts. *)
Fixpoint floats_in (v : Any) : list float :=
  match v with
  | AFloat x => [x]
  | AList items => flat_map floats_in items
  | ADict members => flat_map (fun kv => floats_in kv.2) members
  | _ => []
  end.

Definition printable `{JsonFloats} (v : Any) : Prop :=
  Forall float_round_trip (floats_in v) ∧ forallb convertible (ints_in v) = true.

(** A text that ends a run of characters standing before it. *)
Definition delimited (text : pystr) : Prop :=
  match text with
  | [] => True
  | c :: _ => in_scalar c = false
  end.

(** The parser fed with the tokens of a text, from a given position. *)
Definition reading `{JsonFloats} (open : list frame) (p : position) (text : pystr)
    : option Any :=
  tokens Between text ≫= parse open p.

(** What the parser does with the text of a value that is followed by the
    end of the text or by a delimiter. *)
Definition reads `{JsonFloats} (v : Any) : Prop :=
  printable v → ∀ level open first rest,
    delimited rest →
    reading open (Value first) (dumps level v ++ rest)
    = match deliver v open with
      | Some (open', p') => reading open' p' rest
      | None => None
      end.

(** The code points of a Python string that the UTF-8 codec accepts: the
    Unicode scalar values. *)
Definition scalar_value (c : N) : bool := (c <? 1114112)%N && negb (is_surrogate c).

(** The strings of a value, keys included. *)
Fixpoint strings_in (v : Any) : list pystr :=
  match v with
  | AStr s => [s]
  | AList items => flat_map strings_in items
  | ADict members => flat_map (fun kv => kv.1 :: strings_in kv.2) members
  | _ => []
  end.

(** The values whose strings are made of Unicode scalar values. *)
Definition unicode (v : Any) : Prop :=
  Forall (fun s => forallb scalar_value s = true) (strings_in v).

(** A text that stands somewhere in another. *)
Definition within {A} (x text : list A) : Prop :=
  ∃ before after, text = before ++ x ++ after.

(** The strings of a product. *)
Definition strings_of (p : ProductInDB) : list pystr :=
  [title p; description p; category p]
    ++ option_list (image p) ++ option_list (brand p) ++ option_list (model p).

(** A product that [json.dump] can write and [json.load] read back: its
    strings are made of Unicode scalar values, its price is a float whose
    text reads as that float, and Python converts its integers. *)
Definition storable `{JsonFloats} (p : ProductInDB) : Prop :=
  Forall (fun s => forallb scalar_value s = true) (strings_of p)
  ∧ float_round_trip (price p)
  ∧ convertible (id p) = true
  ∧ forallb convertible (option_list (year p)) = true.

(** The code points that stand for themselves between the quotes. *)
Definition verbatim (c : N) : bool :=
  negb (c <? 32)%N && negb (c =? 34)%N && negb (c =? 92)%N.

(** Saving and then loading gives the catalog back. The write is the one
    the products and the counter lead to. *)
Definition save_load_agree `{JsonFloats} (products : list ProductInDB) (counter : Z)
    : Prop :=
  ∀ d, load_products (save_products (write_of products counter) products counter d)
       = (products, counter).

(** The texts of the prices of the example products, as Python writes
    them. *)
Definition price_texts : list (float * pystr) :=
  [ (price chip, u "29999.9"); (price roupa, u "12999.9") ].

Definition example_floats : JsonFloats :=
  {| float_text x :=
       default [] (snd <$> List.find (fun e => PrimFloat.eqb e.1 x) price_texts);
     float_of_text t :=
       fst <$> List.find (fun e => bool_decide (e.2 = t)) price_texts |}.

(** A product whose title is a lone surrogate, as [json.loads] gives for
    the escape [\ud800]. *)
Definition lone_surrogate : ProductInDB :=
  product_dict
    {| title := [55296%N]; description := u "d"; category := u "c";
       price := price chip; image := None; brand := None; model := None;
       year := None |} 1.

(** * Properties of the catalog *)

(** Closes a goal from the membership [Hp] of a variable in a list written
    out in full, by trying its elements in turn. *)
Ltac each_member Hp :=
  simpl in Hp;
  repeat (apply elem_of_cons in Hp as [->|Hp]; [done|]);
  by apply elem_of_nil in Hp.

(** Arithmetic with the quotients and remainders of the byte encodings. *)
Ltac divmod := zify; Z.to_euclidean_division_equations; lia.

Section Catalog.
Implicit Types (s : Store) (w : write) (p : ProductInDB) (product_id : Z).

Lemma find_product_first db product_id i p :
  db !! i = Some p → id p = product_id →
  (∀ j q, db !! j = Some q → (j < i)%nat → id q ≠ product_id) →
  find_product db product_id = Return p.
Proof.
  revert i. induction db as [|q db IH]; intros i Hi Hp Hfirst; [done|].
  destruct i as [|i]; simpl in *.
  - injection Hi as ->. by rewrite decide_True.
  - rewrite decide_False by (apply (Hfirst 0%nat); [done|lia]).
    apply (IH i); [done..|].
    intros j r Hj Hlt. apply (Hfirst (S j)); [done|lia].
Qed.

Lemma find_product_absent db product_id :
  (∀ p, p ∈ db → id p ≠ product_id) →
  find_product db product_id = Raise nao_encontrado.
Proof.
  induction db as [|q db IH]; intros Habs; [done|]. simpl.
  rewrite decide_False by (apply Habs; left).
  apply IH. intros p Hp. apply Habs. by right.
Qed.

Lemma handle_counter_mono w r s :
  product_id_counter s ≤ product_id_counter (handle w r s).2.
Proof.
  destruct r as [product|product_id product|product_id]; simpl.
  - lia.
  - unfold update_product. by destruct (list_find _ _) as [[i q]|].
  - unfold delete_product. by destruct (list_find _ _) as [[i q]|].
Qed.

Lemma handle_counter_above w r s :
  counter_above s → counter_above (handle w r s).2.
Proof.
  unfold counter_above. intros Hinv.
  destruct r as [product|product_id product|product_id]; simpl.
  - apply Forall_app. split.
    + eapply Forall_impl; [exact Hinv|]. simpl. intros; lia.
    + apply Forall_singleton. simpl. lia.
  - unfold update_product.
    destruct (list_find _ _) as [[i q]|] eqn:Hfind; simpl; [|done].
    apply list_find_Some in Hfind as (Hi & Hq & _).
    apply Forall_insert; [done|]. simpl.
    rewrite <- Hq. by eapply (proj1 (Forall_lookup _ _) Hinv).
  - unfold delete_product.
    destruct (list_find _ _) as [[i q]|] eqn:Hfind; simpl; [|done].
    by apply Forall_delete.
Qed.

Lemma assigned_cons r a trace :
  assigned ((r, a) :: trace) =
  match r, a with
  | Create _, Return (Stored p) => id p :: assigned trace
  | _, _ => assigned trace
  end.
Proof. unfold assigned. simpl. by destruct r, a as [[?|?]|?]. Qed.

(** The identifiers handed out along a run increase strictly and start
    at the counter of the store the run starts from. *)
Lemma run_assigned rs s :
  StronglySorted Z.lt (assigned (run rs s).1) ∧
  Forall (fun n => product_id_counter s ≤ n) (assigned (run rs s).1).
Proof.
  revert s. induction rs as [|[w r] rs IH]; intros s; cbn [run].
  - split; constructor.
  - pose proof (handle_counter_mono w r s) as Hmono.
    destruct (handle w r s) as [a s1] eqn:Hh. cbn [snd] in Hmono.
    destruct (IH s1) as [Hsorted Hbound].
    destruct (run rs s1) as [trace s2]. cbn [fst] in *.
    assert (Forall (fun n => product_id_counter s ≤ n) (assigned trace)) as Hbound'.
    { eapply Forall_impl; [exact Hbound|]. simpl. intros; lia. }
    rewrite assigned_cons.
    destruct r as [product|product_id product|product_id].
    + injection Hh as <- <-. simpl in *. split.
      * constructor; [done|]. eapply Forall_impl; [exact Hbound|]. simpl. intros; lia.
      * constructor; [lia|]. eapply Forall_impl; [exact Hbound|]. simpl. intros; lia.
    + simpl in Hh. destruct (update_product _ _ _ _) as [[q|e] s'];
        by injection Hh as <- <-.
    + simpl in Hh. destruct (delete_product _ _ _) as [[q|e] s'];
        by injection Hh as <- <-.
Qed.

(** C3. From a store whose counter is strictly greater than every
    identifier present: every create, update and delete leads to a store
    with the same property; along every sequence of requests the
    identifiers returned by [create] increase strictly and exceed every
    identifier that was present at the start; and after a successful
    [delete] of an identifier, no later [create] returns it. *)
Theorem counter_above_preserved s :
  counter_above s →
  (∀ w r, counter_above (handle w r s).2) ∧
  (∀ rs,
     StronglySorted Z.lt (assigned (run rs s).1) ∧
     ∀ n p, n ∈ assigned (run rs s).1 → p ∈ products_db s → id p < n) ∧
  (∀ w product_id m s1 rs,
     delete_product w product_id s = (Return m, s1) →
     product_id ∉ assigned (run rs s1).1).
Proof.
  intros Hinv. split; [|split].
  - intros w r. by apply handle_counter_above.
  - intros rs. destruct (run_assigned rs s) as [Hsorted Hbound].
    split; [done|]. intros n p Hn Hp.
    pose proof (proj1 (Forall_forall _ _) Hbound n Hn) as Hge.
    pose proof (proj1 (Forall_forall _ _) Hinv p Hp) as Hlt. simpl in *. lia.
  - intros w product_id m s1 rs Hdel Hin.
    unfold delete_product in Hdel.
    destruct (list_find _ _) as [[i q]|] eqn:Hfind; [|done].
    injection Hdel as _ <-.
    apply list_find_Some in Hfind as (Hi & Hq & _).
    pose proof (proj1 (Forall_lookup _ _) Hinv i q Hi) as Hlt.
    destruct (run_assigned rs
      {| products_db := delete i (products_db s);
         product_id_counter := product_id_counter s;
         data_file := save_products w (delete i (products_db s))
                        (product_id_counter s) (data_file s) |}) as [_ Hbound].
    pose proof (proj1 (Forall_forall _ _) Hbound product_id Hin) as Hge.
    simpl in *. lia.
Qed.

Lemma counter_above_preserved_witness :
  counter_above two_products ∧
  ∀ rs, StronglySorted Z.lt (assigned (run rs two_products).1).
Proof.
  assert (counter_above two_products) as Hinv.
  { unfold counter_above. simpl. repeat constructor. }
  split; [exact Hinv|]. intros rs.
  destruct (counter_above_preserved two_products Hinv) as (_ & Hrun & _).
  apply Hrun.
Defined.

Lemma list_find_id_absent db product_id :
  (∀ p, p ∈ db → id p ≠ product_id) →
  list_find (fun p => id p = product_id) db = None.
Proof. intros Habs. apply list_find_None, Forall_forall. exact Habs. Qed.

(** C4. When no product of the catalog carries the identifier,
    [update_product] raises the 404 error and the product list (with its
    order), the counter and the data file are what they were. *)
Theorem update_missing_not_found w product_id product s :
  (∀ p, p ∈ products_db s → id p ≠ product_id) →
  (update_product w product_id product s).1
    = Raise (HTTPException 404 (u "Produto não encontrado")) ∧
  products_db (update_product w product_id product s).2 = products_db s ∧
  product_id_counter (update_product w product_id product s).2 = product_id_counter s ∧
  data_file (update_product w product_id product s).2 = data_file s.
Proof.
  intros Habs. unfold update_product.
  by rewrite (list_find_id_absent _ _ Habs).
Qed.

Lemma update_missing_not_found_witness :
  (update_product Written 7 chip two_products).1
    = Raise (HTTPException 404 (u "Produto não encontrado")) ∧
  (update_product Written 7 chip two_products).2 = two_products.
Proof.
  assert (∀ p, p ∈ products_db two_products → id p ≠ 7) as Habs.
  { intros p Hp. each_member Hp. }
  destruct (update_missing_not_found Written 7 chip two_products Habs)
    as (Hr & _). split; [exact Hr|reflexivity].
Defined.

(** C5, as amended. When no product of the catalog already carries the
    value of the counter as its identifier (in particular when the counter
    is strictly greater than every identifier present), [create_product]
    returns a stored product under an identifier that no product carried
    before, and [get_product] on that identifier returns a product whose
    title, description, category, price, image, brand, model and year are
    those of the input. *)
Theorem create_then_get w product s :
  (∀ p, p ∈ products_db s → id p ≠ product_id_counter s) →
  create_then_get_agree w product s.
Proof.
  intros Hfresh. exists (product_dict product (product_id_counter s)).
  split; [done|]. split; [exact Hfresh|].
  exists (product_dict product (product_id_counter s)).
  split; [|by repeat split].
  unfold get_product. simpl.
  apply (find_product_first _ _ (length (products_db s))); [|done|].
  - by rewrite lookup_app_r, Nat.sub_diag.
  - intros j q Hj Hlt. rewrite lookup_app_l in Hj by done.
    apply Hfresh. by eapply list_elem_of_lookup_2.
Qed.

Lemma create_then_get_witness : create_then_get_agree Written roupa two_products.
Proof.
  apply create_then_get. intros p Hp. each_member Hp.
Defined.

(** C5, as stated, fails on the store read from a data file without a
    counter: the identifier given to the new product is the one the listed
    product already carries, and [get_product] returns the listed product. *)
Lemma create_then_get_stale :
  ¬ create_then_get_agree Written roupa (store_of file_without_counter).
Proof.
  intros (stored & Hcreate & Hfresh & _).
  injection Hcreate as <-.
  apply (Hfresh (product_dict chip 1)); [|done].
  simpl. left.
Qed.

(** C9. A data file that parses and has no counter key loads with the
    counter 1 whatever the identifiers of its products; the store read from
    such a file can hold a product with identifier 1 (or more) under the
    counter 1; and when a listed product carries the identifier 1, the next
    [create_product] returns the new product under the identifier 1 and
    appends it to the listing, which then holds the listed product and the
    new one at two different positions under the same identifier. *)
Theorem load_without_counter :
  (∀ products, load_products (Some (Object (Some products) None)) = (products, 1)) ∧
  (∃ p, p ∈ products_db (store_of file_without_counter) ∧ 1 ≤ id p) ∧
  product_id_counter (store_of file_without_counter) = 1 ∧
  (∀ w product products listed (i : nat),
     products !! i = Some listed → id listed = 1 →
     (create_product w product (store_of (Some (Object (Some products) None)))).1
       = Return (product_dict product 1) ∧
     get_products
       (create_product w product (store_of (Some (Object (Some products) None)))).2
       = products ++ [product_dict product 1] ∧
     (i < length products)%nat ∧
     (products ++ [product_dict product 1]) !! i = Some listed ∧
     (products ++ [product_dict product 1]) !! length products
       = Some (product_dict product 1) ∧
     id (product_dict product 1) = id listed ∧
     ¬ NoDup (id <$> products ++ [product_dict product 1])).
Proof.
  split; [done|]. split; [|split; [done|]].
  - exists (product_dict chip 1). split; [simpl; left|done].
  - intros w product products listed i Hi Hid.
    pose proof (lookup_lt_Some _ _ _ Hi) as Hlt.
    assert ((products ++ [product_dict product 1]) !! i = Some listed) as Hi'
      by (by rewrite lookup_app_l).
    assert ((products ++ [product_dict product 1]) !! length products
            = Some (product_dict product 1)) as Hnew
      by (by rewrite lookup_app_r, Nat.sub_diag).
    repeat split; try done.
    intros Hnodup.
    assert (i = length products); [|lia].
    apply (NoDup_lookup _ i (length products) 1 Hnodup).
    + by rewrite list_lookup_fmap, Hi', <- Hid.
    + by rewrite list_lookup_fmap, Hnew.
Qed.

(** C10. When the catalog holds a product with the identifier, there is a
    first position [i] holding one; [update_product] puts the new fields
    under the same identifier at position [i] and leaves every other
    position, hence the listing order, as it was; [delete_product] removes
    the entry at position [i] and nothing else, the entries before it
    keeping their positions and those after it moving up by one. *)
Theorem update_and_delete_in_place s product_id :
  (∃ p, p ∈ products_db s ∧ id p = product_id) →
  ∃ (i : nat) (old : ProductInDB),
    products_db s !! i = Some old ∧ id old = product_id ∧
    (∀ j q, products_db s !! j = Some q → (j < i)%nat → id q ≠ product_id) ∧
    (∀ w product,
       (update_product w product_id product s).1
         = Return (product_dict product product_id) ∧
       length (get_products (update_product w product_id product s).2)
         = length (get_products s) ∧
       get_products (update_product w product_id product s).2 !! i
         = Some (product_dict product product_id) ∧
       ∀ j, j ≠ i →
         get_products (update_product w product_id product s).2 !! j
         = get_products s !! j) ∧
    (∀ w,
       (delete_product w product_id s).1 = Return (u "Produto excluído com sucesso") ∧
       get_products (delete_product w product_id s).2
         = take i (get_products s) ++ drop (S i) (get_products s) ∧
       get_products (delete_product w product_id s).2 `sublist_of` get_products s ∧
       (∀ j, (j < i)%nat →
          get_products (delete_product w product_id s).2 !! j = get_products s !! j) ∧
       (∀ j, (i ≤ j)%nat →
          get_products (delete_product w product_id s).2 !! j
          = get_products s !! S j)).
Proof.
  intros (p & Hp & Hid).
  destruct (list_find_elem_of (fun q => id q = product_id) _ p Hp Hid)
    as [[i old] Hfind].
  pose proof Hfind as Hspec.
  apply list_find_Some in Hspec as (Hi & Hold & Hfirst).
  exists i, old. split; [done|]. split; [done|]. split.
  { intros j q Hj Hlt. by eapply Hfirst. }
  unfold get_products, update_product, delete_product. rewrite Hfind. simpl.
  split.
  - intros w product. split; [done|]. split; [apply length_insert|].
    split.
    + apply list_lookup_insert_eq. by eapply lookup_lt_Some.
    + intros j Hne. by apply list_lookup_insert_ne.
  - intros w. split; [done|]. split; [apply delete_take_drop|].
    split; [apply sublist_delete|]. split.
    + intros j Hlt. by apply list_lookup_delete_lt.
    + intros j Hge. by apply list_lookup_delete_ge.
Qed.

Lemma update_and_delete_in_place_witness :
  ∃ (i : nat) (old : ProductInDB),
    products_db two_products !! i = Some old ∧ id old = 2 ∧
    get_products (delete_product Written 2 two_products).2
      = take i (get_products two_products) ++ drop (S i) (get_products two_products).
Proof.
  assert (∃ p, p ∈ products_db two_products ∧ id p = 2) as Hex.
  { exists (product_dict roupa 2). split; [|done]. simpl. right. left. }
  destruct (update_and_delete_in_place two_products 2 Hex)
    as (i & old & Hi & Hold & _ & _ & Hdel).
  exists i, old. split; [exact Hi|]. split; [exact Hold|].
  destruct (Hdel Written) as (_ & Heq & _). exact Heq.
Defined.

End Catalog.

(** * Properties of the assistant *)

Section StringFacts.

Lemma startswith_spec (s p : pystr) :
  startswith s p = true ↔ ∃ after, s = p ++ after.
Proof.
  revert s. induction p as [|a p IH]; intros s; simpl.
  - split; [intros _; by exists s|done].
  - destruct s as [|b s].
    + split; [done|]. by intros (after & ?).
    + rewrite andb_true_iff, N.eqb_eq, IH. split.
      * intros (-> & after & ->). by exists after.
      * intros (after & Heq). injection Heq as -> ->. eauto.
Qed.

Lemma str_in_spec (p s : pystr) :
  str_in p s = true ↔ ∃ before after, s = before ++ p ++ after.
Proof.
  induction s as [|c s IH].
  - simpl. rewrite orb_false_r, startswith_spec. split.
    + intros (after & Heq). by exists [], after.
    + intros (before & after & Heq). symmetry in Heq.
      apply app_eq_nil in Heq as (-> & Heq).
      apply app_eq_nil in Heq as (-> & ->). by exists [].
  - cbn [str_in]. rewrite orb_true_iff, startswith_spec, IH. split.
    + intros [(after & Heq)|(before & after & ->)].
      * by exists [], after.
      * by exists (c :: before), after.
    + intros (before & after & Heq). destruct before as [|b before].
      * left. by exists after.
      * right. injection Heq as -> ->. eauto.
Qed.



End StringFacts.

Section AssistantFacts.
Context `{Builtins} `{Collaborators}.

Lemma ret_bind {A B} (a : A) (f : A → M B) : mbind f (ret a) = f a.
Proof. unfold mbind, M_bind, bind, ret. by destruct (f a). Qed.

Lemma raise_bind {A B} (e : exception) (f : A → M B) : mbind f (raise e) = raise e.
Proof. done. Qed.

Lemma call_bind {B} (ev : event) (f : unit → M B) :
  mbind f (call ev) = (ev :: (f tt).1, (f tt).2).
Proof. unfold mbind, M_bind, bind, call. by destruct (f tt). Qed.

Lemma lift_bind {A B} (r : result A) (f : A → M B) :
  mbind f (lift r) = match r with Return a => f a | Raise e => raise e end.
Proof. destruct r as [a|e]; [apply (ret_bind a f)|done]. Qed.

Lemma bind_assoc {A B C} (m : M A) (f : A → M B) (g : B → M C) :
  mbind g (mbind f m) = mbind (fun a => mbind g (f a)) m.
Proof.
  unfold mbind, M_bind, bind. destruct m as [log [a|e]]; [|done].
  destruct (f a) as [log1 [b|e]]; [|done].
  destruct (g b) as [log2 r]. by rewrite app_assoc.
Qed.

Lemma try_except_log {A} (body : M A) (g : exception → exception) :
  (try_except body (fun e => raise (g e))).1 = body.1.
Proof. destruct body as [log [a|e]]; simpl; [done|apply app_nil_r]. Qed.

Lemma try_except_result {A} (body : M A) (g : exception → exception) :
  (try_except body (fun e => raise (g e))).2
  = match body.2 with Return a => Return a | Raise e => Raise (g e) end.
Proof. by destruct body as [log [a|e]]. Qed.

(** C1, on the code. A request whose message is empty makes no call to
    the provider nor to the weather service, and the handler answers with
    status 500: the 400 error it raises is caught by its own
    [except Exception] clause and raised again as a 500 error whose detail
    is the text of the first. *)
Theorem empty_message_answered_500 c h v :
  process_buddy_request
    {| message := []; context := c; history := h; voice_enabled := v |}
  = ([], Raise (HTTPException 500
                  (str_exception (HTTPException 400 (u "Mensagem vazia"))))).
Proof. reflexivity. Qed.

(** C2, as amended. When no context is supplied (none, or an empty one),
    the context is the newline-join of exactly those entries of the
    knowledge base, in its order, whose lower-cased text contains as a
    substring the lower-cased form of some whitespace-delimited token of
    the message, or the marker when there is no such entry; without a
    history, this context ends the user message of the first submission to
    the provider. *)
Theorem derived_context_by_substring request :
  message request ≠ [] →
  context request = None ∨ context request = Some [] →
  ∃ resultados : list pystr,
    resultados `sublist_of` base_conhecimento ∧
    (∀ doc, doc ∈ resultados ↔
       doc ∈ base_conhecimento ∧
       ∃ palavra, palavra ∈ split (message request) ∧
         ∃ before after, lower doc = before ++ lower palavra ++ after) ∧
    context_of request
      = match resultados with
        | [] => nenhuma_informacao
        | _ => join newline resultados
        end ∧
    (history request = None ∨ history request = Some [] →
     ∃ rest,
       (process_buddy_request request).1
       = Completion
           [ RoleContent (u "system") persona;
             RoleContent (u "user")
               (u "Oi Buddy! " ++ message request ++ newline ++ newline
                  ++ u "Contexto:" ++ newline ++ context_of request) ]
           (Some tools) :: rest).
Proof.
  intros Hmsg Hctx.
  set (keep := fun doc : pystr =>
         existsb (fun palavra => str_in (lower palavra) (lower doc))
                 (split (message request))).
  exists (filter (fun doc => keep doc) base_conhecimento).
  split; [apply sublist_filter|]. split; [|split].
  - intros doc. rewrite list_elem_of_filter. unfold keep.
    rewrite existb_True, Exists_exists. split.
    + intros [(palavra & Hin & Hsub) Hdoc]. split; [done|].
      exists palavra. split; [done|].
      by apply str_in_spec, Is_true_true.
    + intros [Hdoc (palavra & Hin & Hsub)]. split; [|done].
      exists palavra. split; [done|].
      by apply Is_true_true, str_in_spec.
  - unfold context_of. by destruct Hctx as [-> | ->].
  - intros Hhist.
    unfold process_buddy_request, buddy_try. rewrite try_except_log. cbv zeta.
    destruct (message request) as [|c cs] eqn:Hm; [done|]. cbn [str_truthy].
    rewrite ret_bind, call_bind. cbn [fst].
    unfold initial_messages at 1. rewrite Hm.
    destruct Hhist as [-> | ->]; by eexists.
Qed.


Lemma bind_returns {A B} (m : M A) (f : A → M B) (b : B) :
  (mbind f m).2 = Return b → ∃ a, m.2 = Return a ∧ (f a).2 = Return b.
Proof.
  unfold mbind, M_bind, bind. destruct m as [log [a|e]]; [|done].
  intros Hb. exists a. split; [done|]. by destruct (f a).
Qed.

(** What the handler does about speech (C8): whenever it answers, the
    reference is the speech path followed by the final text with each
    space replaced by [%20] and every other code point as it is, when
    voice is enabled, and there is no reference otherwise. *)
Lemma speech_reference request answer :
  (process_buddy_request request).2 = Return answer →
  audio_url answer
  = match voice_enabled request, response answer with
    | Some true, Some text => Some (u "/api/buddy/speech?text=" ++ replace_space text)
    | _, _ => None
    end.
Proof.
  unfold process_buddy_request, buddy_try. rewrite try_except_result. cbv zeta.
  intros Hbody.
  match type of Hbody with
  | match ?r with _ => _ end = _ => destruct r as [a|e] eqn:Hr; [|done]
  end.
  injection Hbody as ->.
  apply bind_returns in Hr as (_ & _ & Hr).
  apply bind_returns in Hr as (_ & _ & Hr).
  apply bind_returns in Hr as (choices & _ & Hr).
  apply bind_returns in Hr as (response_message & _ & Hr).
  apply bind_returns in Hr as (resposta_final & _ & Hr).
  apply bind_returns in Hr as (url & Hurl & Hr).
  cbn [lift snd] in Hr. unfold json_response in Hr.
  destruct (_ && _) in Hr; [|done].
  injection Hr as <-. simpl.
  by destruct (voice_enabled request) as [[|]|], resposta_final;
    simpl in Hurl; try injection Hurl as <-.
Qed.

End AssistantFacts.

(** * The properties at concrete requests *)


Lemma derived_context_by_substring_witness :
  ∃ resultados : list pystr,
    resultados `sublist_of` base_conhecimento ∧
    @context_of example_builtins (pedido (u "art") false)
    = match resultados with
      | [] => nenhuma_informacao
      | _ => join newline resultados
      end.
Proof.
  destruct (@derived_context_by_substring example_builtins (answers [])
              (pedido (u "art") false)) as (resultados & Hsub & _ & Hctx & _);
    [done|by left|].
  by exists resultados.
Defined.

(** C2, as stated, fails on the message "art": no entry of the knowledge
    base has the token "art", so the reading by shared tokens gives the
    marker, while the handler keeps the first, third and fourth entries,
    which contain "art" inside "arte", "artificial" and "artistas". *)
Lemma derived_context_not_by_shared_tokens :
  @context_by_shared_tokens example_builtins (u "art") = nenhuma_informacao ∧
  @context_of example_builtins (pedido (u "art") false)
  = join newline [ base_conhecimento !!! 0%nat; base_conhecimento !!! 2%nat;
                  base_conhecimento !!! 3%nat ] ∧
  @context_of example_builtins (pedido (u "art") false)
  ≠ @context_by_shared_tokens example_builtins (message (pedido (u "art") false)).
Proof. split; [|split]; [by vm_compute..|]. vm_compute. discriminate. Qed.

(** The scenario of the message "Oi": nothing matches and the marker is
    the context. *)
Example derived_context_oi :
  @context_of example_builtins (pedido (u "Oi") false) = nenhuma_informacao.
Proof. by vm_compute. Qed.

(** C8, on the code. With voice enabled and the final text "a&b" the
    handler answers with the reference [/api/buddy/speech?text=a&b]: the
    ampersand is not escaped, and the text query value of that reference is
    "a", not the final text. *)
Theorem speech_reference_cut_at_ampersand (builtins : Builtins) :
  (@process_buddy_request builtins (answers (u "a&b")) (pedido (u "Oi") true)).2
  = Return {| response := Some (u "a&b");
              audio_url := Some (u "/api/buddy/speech?text=a&b") |} ∧
  query_value (u "text") (u "/api/buddy/speech?text=a&b") = Some (u "a") ∧
  query_value (u "text") (u "/api/buddy/speech?text=a&b") ≠ Some (u "a&b").
Proof. split; [done|]. split; [by vm_compute|]. vm_compute. discriminate. Qed.

(** A final text without reserved characters is carried whole, and no
    reference is given when voice is disabled. *)
Example speech_reference_hello :
  (@process_buddy_request example_builtins (answers (u "Hello world"))
     (pedido (u "Oi") true)).2
  = Return {| response := Some (u "Hello world");
              audio_url := Some (u "/api/buddy/speech?text=Hello%20world") |} ∧
  query_value (u "text") (u "/api/buddy/speech?text=Hello%20world")
  = Some (u "Hello world") ∧
  (@process_buddy_request example_builtins (answers (u "Hello world"))
     (pedido (u "Oi") false)).2
  = Return {| response := Some (u "Hello world"); audio_url := None |}.
Proof. by vm_compute. Qed.

(** On the store read from the file without counter, [get_product] on the
    identifier given to the new product returns the product listed before. *)
Example create_then_get_stale_found :
  get_product 1 (create_product Written roupa (store_of file_without_counter)).2
  = Return (product_dict chip 1).
Proof. reflexivity. Qed.

(** The scenario of the empty store: two products are created under the
    identifiers 1 and 2, the first is deleted, the listing holds the second
    alone, and the next product is created under 3. *)
Example scenario_identifiers :
  let requests :=
    [ (Written, Create chip); (Written, Create roupa); (Written, Delete 1);
      (Written, Create chip) ] in
  assigned (run requests (store_of None)).1 = [1; 2; 3] ∧
  get_products (run (take 3 requests) (store_of None)).2 = [product_dict roupa 2] ∧
  load_products (data_file (run requests (store_of None)).2)
  = ([product_dict roupa 2; product_dict chip 3], 4).
Proof. by vm_compute. Qed.

(** * Further properties of the catalog *)

Section CatalogLookups.
Implicit Types (s : Store) (w : write) (p : ProductInDB) (product_id : Z).

Lemma find_product_returns db product_id p :
  find_product db product_id = Return p ↔
  ∃ i, db !! i = Some p ∧ id p = product_id ∧
       ∀ j q, db !! j = Some q → (j < i)%nat → id q ≠ product_id.
Proof.
  split.
  - induction db as [|q db IH]; [done|]. simpl.
    destruct (decide (id q = product_id)) as [Hq|Hq].
    + intros [= ->]. exists 0%nat. split; [done|]. split; [done|]. intros; lia.
    + intros Hfind. destruct (IH Hfind) as (i & Hi & Hid & Hfirst).
      exists (S i). split; [done|]. split; [done|].
      intros [|j] r Hj Hlt; simpl in Hj.
      * by injection Hj as <-.
      * apply (Hfirst j); [done|lia].
  - intros (i & Hi & Hid & Hfirst). by eapply find_product_first.
Qed.

Lemma find_product_raises db product_id e :
  find_product db product_id = Raise e →
  e = nao_encontrado ∧ ∀ p, p ∈ db → id p ≠ product_id.
Proof.
  induction db as [|q db IH]; simpl.
  - intros [= <-]. split; [done|]. intros p Hp. by apply elem_of_nil in Hp.
  - destruct (decide (id q = product_id)) as [Hq|Hq]; [done|].
    intros Hfind. destruct (IH Hfind) as [-> Habs]. split; [done|].
    intros p Hp. apply elem_of_cons in Hp as [->|Hp]; [done|by apply Habs].
Qed.

(** [get_product] answers with the first product of the listing that
    carries the identifier, and raises the 404 error, and no other, exactly
    when no product carries it. *)
Theorem get_product_first_or_404 s product_id :
  (∀ p, get_product product_id s = Return p ↔
        ∃ i, get_products s !! i = Some p ∧ id p = product_id ∧
             ∀ j q, get_products s !! j = Some q → (j < i)%nat → id q ≠ product_id) ∧
  (∀ e, get_product product_id s = Raise e ↔
        e = HTTPException 404 (u "Produto não encontrado") ∧
        ∀ p, p ∈ get_products s → id p ≠ product_id).
Proof.
  unfold get_product, get_products. split.
  - intros p. apply find_product_returns.
  - intros e. split; [apply find_product_raises|].
    intros [-> Habs]. by apply find_product_absent.
Qed.

(** When no product carries the identifier, [delete_product] raises the
    404 error and leaves the product list, the counter and the data file as
    they were. *)
Theorem delete_missing_not_found w product_id s :
  (∀ p, p ∈ products_db s → id p ≠ product_id) →
  delete_product w product_id s
  = (Raise (HTTPException 404 (u "Produto não encontrado")), s).
Proof.
  intros Habs. unfold delete_product.
  by rewrite (list_find_id_absent _ _ Habs).
Qed.

Lemma delete_missing_not_found_witness :
  delete_product Written 7 two_products
  = (Raise (HTTPException 404 (u "Produto não encontrado")), two_products).
Proof.
  apply delete_missing_not_found. intros p Hp. each_member Hp.
Defined.

(** After [update_product] on an identifier that a product carries,
    [get_product] on that identifier returns the new fields under the same
    identifier, also when several products carry it. *)
Theorem update_then_get w product_id product s :
  (∃ p, p ∈ products_db s ∧ id p = product_id) →
  (update_product w product_id product s).1 = Return (product_dict product product_id) ∧
  get_product product_id (update_product w product_id product s).2
  = Return (product_dict product product_id).
Proof.
  intros (p & Hp & Hid).
  destruct (list_find_elem_of (fun q => id q = product_id) _ p Hp Hid)
    as [[i old] Hfind].
  unfold update_product, get_product. rewrite Hfind. simpl. split; [done|].
  apply list_find_Some in Hfind as (Hi & Hold & Hfirst).
  apply (find_product_first _ _ i); [|done|].
  - apply list_lookup_insert_eq. by eapply lookup_lt_Some.
  - intros j q Hj Hlt. rewrite list_lookup_insert_ne in Hj by lia.
    by eapply Hfirst.
Qed.

Lemma update_then_get_witness :
  get_product 1 (update_product Written 1 roupa two_products).2
  = Return (product_dict roupa 1).
Proof.
  assert (∃ p, p ∈ products_db two_products ∧ id p = 1) as Hex.
  { exists (product_dict chip 1). split; [simpl; left|done]. }
  exact (proj2 (update_then_get Written 1 roupa two_products Hex)).
Defined.

End CatalogLookups.

Section CatalogInvariants.
Implicit Types (s : Store) (w : write) (p : ProductInDB) (product_id : Z).

Lemma handle_unique_ids w r s :
  counter_above s → unique_ids s → unique_ids (handle w r s).2.
Proof.
  unfold counter_above, unique_ids. intros Habove Huniq.
  destruct r as [product|product_id product|product_id]; simpl.
  - rewrite fmap_app. apply NoDup_app. split; [done|]. split; [|apply NoDup_singleton].
    intros n Hn Hnew. apply list_elem_of_fmap in Hn as (q & -> & Hq).
    apply list_elem_of_singleton in Hnew. simpl in Hnew.
    pose proof (proj1 (Forall_forall _ _) Habove q Hq) as Hlt. simpl in Hlt. lia.
  - unfold update_product.
    destruct (list_find _ _) as [[i q]|] eqn:Hfind; simpl; [|done].
    apply list_find_Some in Hfind as (Hi & Hq & _).
    rewrite list_fmap_insert. simpl. rewrite list_insert_id; [done|].
    by rewrite list_lookup_fmap, Hi, <- Hq.
  - unfold delete_product.
    destruct (list_find _ _) as [[i q]|] eqn:Hfind; simpl; [|done].
    rewrite list_fmap_delete. eapply sublist_NoDup; [exact Huniq|apply sublist_delete].
Qed.

(** From a store whose identifiers are pairwise distinct and lie below the
    counter, every sequence of create, update and delete requests, whatever
    becomes of the writes, leads to a store with the same two properties. *)
Theorem unique_ids_along_runs rs s :
  counter_above s → unique_ids s →
  counter_above (run rs s).2 ∧ unique_ids (run rs s).2.
Proof.
  revert s. induction rs as [|[w r] rs IH]; intros s Habove Huniq; [done|].
  cbn [run].
  pose proof (handle_counter_above w r s Habove) as Habove'.
  pose proof (handle_unique_ids w r s Habove Huniq) as Huniq'.
  destruct (handle w r s) as [a s1]. simpl in Habove', Huniq'.
  specialize (IH s1 Habove' Huniq').
  by destruct (run rs s1) as [trace s2].
Qed.

Lemma unique_ids_along_runs_witness :
  unique_ids
    (run [(Written, Create chip); (OpenRaises, Delete 1); (DumpRaises, Update 2 chip)]
         two_products).2.
Proof.
  apply unique_ids_along_runs.
  - unfold counter_above. simpl. repeat constructor.
  - unfold unique_ids. simpl. apply NoDup_cons. split.
    + intros Hin. apply list_elem_of_singleton in Hin. done.
    + apply NoDup_singleton.
Defined.

(** With pairwise distinct identifiers, [get_product] on an identifier
    that [delete_product] has just removed raises the 404 error. *)
Theorem delete_then_get w product_id s :
  unique_ids s →
  (∃ p, p ∈ products_db s ∧ id p = product_id) →
  (delete_product w product_id s).1 = Return (u "Produto excluído com sucesso") ∧
  get_product product_id (delete_product w product_id s).2
  = Raise (HTTPException 404 (u "Produto não encontrado")).
Proof.
  unfold unique_ids. intros Huniq (p & Hp & Hid).
  destruct (list_find_elem_of (fun q => id q = product_id) _ p Hp Hid)
    as [[i old] Hfind].
  unfold delete_product, get_product. rewrite Hfind. simpl. split; [done|].
  apply list_find_Some in Hfind as (Hi & Hold & _).
  apply find_product_absent. intros q Hq Hqid.
  apply list_elem_of_lookup_1 in Hq as [j Hj].
  assert (∃ k, k ≠ i ∧ products_db s !! k = Some q) as (k & Hne & Hk).
  { destruct (decide (j < i)%nat) as [Hlt|Hge].
    - exists j. split; [lia|]. by rewrite list_lookup_delete_lt in Hj.
    - exists (S j). split; [lia|]. by rewrite list_lookup_delete_ge in Hj by lia. }
  apply Hne. apply (NoDup_lookup (id <$> products_db s) k i product_id); [done|..].
  - by rewrite list_lookup_fmap, Hk, <- Hqid.
  - by rewrite list_lookup_fmap, Hi, <- Hold.
Qed.

Lemma delete_then_get_witness :
  get_product 1 (delete_product Written 1 two_products).2
  = Raise (HTTPException 404 (u "Produto não encontrado")).
Proof.
  assert (unique_ids two_products) as Huniq.
  { unfold unique_ids. simpl. apply NoDup_cons. split.
    - intros Hin. apply list_elem_of_singleton in Hin. done.
    - apply NoDup_singleton. }
  assert (∃ p, p ∈ products_db two_products ∧ id p = 1) as Hex.
  { exists (product_dict chip 1). split; [simpl; left|done]. }
  exact (proj2 (delete_then_get Written 1 two_products Huniq Hex)).
Defined.

Lemma find_product_app_other db p other :
  id p ≠ other → find_product (db ++ [p]) other = find_product db other.
Proof.
  intros Hne. induction db as [|q db IH]; simpl.
  - by rewrite decide_False.
  - by destruct (decide (id q = other)).
Qed.

Lemma find_product_insert_other db i old p other :
  db !! i = Some old → id old ≠ other → id p ≠ other →
  find_product (<[i := p]> db) other = find_product db other.
Proof.
  revert i. induction db as [|q db IH]; intros i Hi Hold Hp; [done|].
  destruct i as [|i]; simpl in *.
  - injection Hi as ->. by rewrite !decide_False.
  - destruct (decide (id q = other)); [done|]. by apply IH.
Qed.

Lemma find_product_delete_other db i old other :
  db !! i = Some old → id old ≠ other →
  find_product (delete i db) other = find_product db other.
Proof.
  revert i. induction db as [|q db IH]; intros i Hi Hold; [done|].
  destruct i as [|i]; simpl in *.
  - injection Hi as ->. by rewrite decide_False.
  - destruct (decide (id q = other)); [done|]. by apply IH.
Qed.

(** A request leaves the answer of [get_product] on every identifier other
    than its own as it was: the one [create] assigns, or the one given to
    [update] or [delete]. *)
Theorem other_products_untouched w r s other :
  other ≠ target r s →
  get_product other (handle w r s).2 = get_product other s.
Proof.
  intros Hne. unfold get_product.
  destruct r as [product|product_id product|product_id]; simpl in *.
  - by apply find_product_app_other.
  - unfold update_product.
    destruct (list_find _ _) as [[i old]|] eqn:Hfind; simpl; [|done].
    apply list_find_Some in Hfind as (Hi & Hold & _).
    apply (find_product_insert_other _ _ old); [done|simpl in *; congruence|done].
  - unfold delete_product.
    destruct (list_find _ _) as [[i old]|] eqn:Hfind; simpl; [|done].
    apply list_find_Some in Hfind as (Hi & Hold & _).
    apply (find_product_delete_other _ _ old); [done|simpl in *; congruence].
Qed.

Lemma other_products_untouched_witness :
  get_product 2 (handle Written (Delete 1) two_products).2 = get_product 2 two_products.
Proof. by apply other_products_untouched. Defined.

End CatalogInvariants.

Section CatalogPersistence.
Implicit Types (s : Store) (w : write) (p : ProductInDB) (product_id : Z).

Lemma handle_written_in_sync r s :
  in_sync s → in_sync (handle Written r s).2.
Proof.
  unfold in_sync. intros Hsync.
  destruct r as [product|product_id product|product_id]; simpl.
  - done.
  - unfold update_product. by destruct (list_find _ _) as [[i q]|].
  - unfold delete_product. by destruct (list_find _ _) as [[i q]|].
Qed.

(** From a store whose data file loads as the catalog in memory, every
    sequence of requests whose writes all go through, the refused requests
    included, leads to such a store again. *)
Theorem in_sync_along_runs rs s :
  in_sync s → Forall (fun wr => wr.1 = Written) rs → in_sync (run rs s).2.
Proof.
  revert s. induction rs as [|[w r] rs IH]; intros s Hsync Hall; [done|].
  apply Forall_cons in Hall as [Hw Hall]. simpl in Hw. subst w. cbn [run].
  pose proof (handle_written_in_sync r s Hsync) as Hsync'.
  destruct (handle Written r s) as [a s1]. simpl in Hsync'.
  specialize (IH s1 Hsync' Hall).
  by destruct (run rs s1) as [trace s2].
Qed.

Lemma in_sync_along_runs_witness :
  in_sync (run [(Written, Create chip); (Written, Delete 9); (Written, Update 1 roupa)]
               (store_of None)).2.
Proof.
  apply in_sync_along_runs; [done|]. by repeat constructor.
Defined.

(** When [open] raises at the write, the handler answers and changes the
    catalog in memory exactly as when the write goes through, but the data
    file still loads as the catalog before the request: the request is lost
    at the next start although it was answered. *)
Theorem failed_write_loses_request r s :
  in_sync s →
  (handle OpenRaises r s).1 = (handle Written r s).1 ∧
  products_db (handle OpenRaises r s).2 = products_db (handle Written r s).2 ∧
  product_id_counter (handle OpenRaises r s).2
    = product_id_counter (handle Written r s).2 ∧
  load_products (data_file (handle OpenRaises r s).2)
    = (products_db s, product_id_counter s).
Proof.
  unfold in_sync. intros Hsync.
  destruct r as [product|product_id product|product_id]; simpl.
  - done.
  - unfold update_product. by destruct (list_find _ _) as [[i q]|].
  - unfold delete_product. by destruct (list_find _ _) as [[i q]|].
Qed.

Lemma failed_write_loses_request_witness :
  load_products (data_file (handle OpenRaises (Create chip) (store_of None)).2) = ([], 1) ∧
  products_db (handle OpenRaises (Create chip) (store_of None)).2 = [product_dict chip 1].
Proof.
  assert (in_sync (store_of None)) as Hsync by done.
  destruct (failed_write_loses_request (Create chip) (store_of None) Hsync)
    as (_ & Hdb & _ & Hload).
  split; [exact Hload|]. rewrite Hdb. reflexivity.
Defined.

(** On an empty catalog [startup_event] appends the three examples, in
    their order, under the counter and its two successors, moves the counter
    up by three and saves; on a catalog with a product it does nothing, not
    even a write. It never leaves the catalog empty, and running it again
    changes nothing. *)
Theorem startup_seeds_when_empty w s :
  (products_db s = [] →
   product <$> products_db (startup_event w s) = example_products ∧
   id <$> products_db (startup_event w s)
     = [product_id_counter s; product_id_counter s + 1; product_id_counter s + 2] ∧
   product_id_counter (startup_event w s) = product_id_counter s + 3 ∧
   data_file (startup_event w s)
     = save_products w (products_db (startup_event w s))
         (product_id_counter s + 3) (data_file s)) ∧
  (products_db s ≠ [] → startup_event w s = s) ∧
  products_db (startup_event w s) ≠ [] ∧
  ∀ w', startup_event w' (startup_event w s) = startup_event w s.
Proof.
  unfold startup_event. destruct (products_db s) as [|p db] eqn:Hdb.
  - split; [|split; [done|split; [done|done]]].
    intros _. simpl. by rewrite <- !Z.add_assoc.
  - by rewrite Hdb.
Qed.

(** [startup_event] keeps the identifiers pairwise distinct and below the
    counter. *)
Theorem startup_keeps_invariants w s :
  counter_above s → unique_ids s →
  counter_above (startup_event w s) ∧ unique_ids (startup_event w s).
Proof.
  unfold counter_above, unique_ids, startup_event.
  destruct (products_db s) as [|p db] eqn:Hdb; [|by rewrite Hdb].
  intros _ _. simpl. split.
  - repeat constructor; simpl; lia.
  - repeat (apply NoDup_cons; split; [|]); try apply NoDup_nil_2;
      rewrite ?elem_of_cons, ?elem_of_nil; lia.
Qed.

Lemma startup_keeps_invariants_witness :
  unique_ids (startup_event Written (store_of (Some Unreadable))).
Proof.
  refine (proj2 (startup_keeps_invariants Written (store_of (Some Unreadable)) _ _)).
  - unfold counter_above. simpl. constructor.
  - unfold unique_ids. simpl. constructor.
Defined.

(** A start of the process on the data file of a store that the file
    mirrors gives that store back when the catalog has a product; when the
    catalog is empty (every product was deleted), the examples come back
    under the counter of the store and its two successors. *)
Theorem restart_restores w s :
  in_sync s →
  (products_db s ≠ [] → start w (data_file s) = s) ∧
  (products_db s = [] →
   product <$> products_db (start w (data_file s)) = example_products ∧
   id <$> products_db (start w (data_file s))
     = [product_id_counter s; product_id_counter s + 1; product_id_counter s + 2]).
Proof.
  unfold in_sync, start, store_of. intros Hsync. rewrite Hsync. simpl.
  destruct s as [db c d]. simpl in *. split.
  - intros Hne. unfold startup_event. simpl. by destruct db.
  - intros ->. unfold startup_event. simpl. by rewrite <- !Z.add_assoc.
Qed.

Lemma restart_restores_witness :
  start OpenRaises
    (data_file (handle Written (Create chip) (store_of None)).2)
  = (handle Written (Create chip) (store_of None)).2.
Proof.
  assert (in_sync (handle Written (Create chip) (store_of None)).2) as Hsync by done.
  apply (restart_restores OpenRaises _ Hsync). done.
Defined.

End CatalogPersistence.

(** * Further properties of the assistant *)

(** One step of the handler: a bind is resolved by the laws of the monad,
    or the value a [match] inspects is taken apart. *)
Ltac handler_step :=
  first
    [ rewrite bind_assoc | rewrite lift_bind | rewrite ret_bind
    | rewrite raise_bind | rewrite call_bind
    | match goal with
      | |- context [match ?x with _ => _ end] => destruct x eqn:?
      end ];
  cbn [fst snd first_choice].

Ltac handler_start :=
  unfold process_buddy_request, buddy_try;
  rewrite ?try_except_log, ?try_except_result; cbv zeta.

Section AssistantExtras.
Context `{Builtins} `{Collaborators}.

(** Whatever the request and whatever the collaborators do, the calls made
    are none (exactly when the message is empty), or the one submission of
    the initial messages with the tools declared, or that submission, one
    weather lookup and one submission without tools of the initial messages
    extended by the reply and a tool message: never more than two
    submissions nor more than one lookup. *)
Theorem calls_are_bounded request :
  let first_call := Completion (initial_messages request) (Some tools) in
  ((process_buddy_request request).1 = [] ∧ message request = []) ∨
  (message request ≠ [] ∧
   ((process_buddy_request request).1 = [first_call] ∨
    ∃ reply tool_call latitude longitude,
      (process_buddy_request request).1
      = [ first_call;
          Forecast latitude longitude;
          Completion
            (initial_messages request
               ++ [ ModelDump reply;
                    ToolResult (tool_call_id tool_call)
                      (str_float (default 25%float (open_meteo latitude longitude))) ])
            None ])).
Proof.
  intros first_call. subst first_call. handler_start.
  destruct (message request) as [|c cs] eqn:Hm; [by left|].
  right. split; [done|]. cbn [str_truthy].
  rewrite ret_bind, call_bind. cbn [fst snd].
  destruct (chat_completions_create (initial_messages request) (Some tools))
    as [[|reply rest]|e]; rewrite lift_bind; cbn [first_choice];
    rewrite ?lift_bind; [by left| |by left].
  destruct (tool_calls reply) as [[|tool_call more]|].
  1, 3: left; repeat handler_step; done.
  rewrite bind_assoc.
  destruct (json_loads (function_arguments tool_call)) as [args|e];
    rewrite lift_bind; [|by left].
  rewrite bind_assoc.
  destruct (getitem args (u "latitude")) as [latitude|e];
    rewrite lift_bind; [|by left].
  rewrite bind_assoc.
  destruct (getitem args (u "longitude")) as [longitude|e];
    rewrite lift_bind; [|by left].
  right. unfold get_weather.
  rewrite !bind_assoc, call_bind. cbn [fst snd].
  rewrite !ret_bind, !bind_assoc, call_bind. cbn [fst snd].
  exists reply, tool_call, latitude, longitude.
  do 3 f_equal. repeat handler_step; done.
Qed.

(** The [except] clause of the handler: an exception raised in the [try]
    block, the 400 error of the empty message included, leaves the handler
    as a 500 error whose detail is the text of that very exception, and the
    handler raises nothing else; a response built in the [try] block is
    returned as it is; the calls made are those of the [try] block. *)
Theorem every_error_is_500 request :
  (∀ e, (process_buddy_request request).2 = Raise e ↔
        ∃ cause, (buddy_try request).2 = Raise cause ∧
                 e = HTTPException 500 (str_exception cause)) ∧
  (∀ answer, (process_buddy_request request).2 = Return answer ↔
             (buddy_try request).2 = Return answer) ∧
  (process_buddy_request request).1 = (buddy_try request).1 ∧
  (message request = [] →
   buddy_try request = ([], Raise (HTTPException 400 (u "Mensagem vazia")))).
Proof.
  unfold process_buddy_request. rewrite try_except_log, try_except_result.
  split; [|split; [|split; [done|]]].
  - intros e. destruct (buddy_try request).2 as [a|cause].
    + split; [done|]. by intros (cause & ? & _).
    + split.
      * intros [= <-]. by exists cause.
      * by intros (cause' & [= <-] & ->).
  - intros answer. destruct (buddy_try request).2 as [a|cause]; [|done].
    split; by intros [= ->].
  - intros Hm. unfold buddy_try. by rewrite Hm.
Qed.

(** A final text that holds a surrogate cannot be encoded into the
    response: whatever the voice setting, the answer is a 500 error with
    the text of the codec's exception. *)
Lemma answer_with_surrogate request text :
  encodable text = false →
  answer_with request (Some text)
  = Raise (HTTPException 500 (str_exception UnicodeEncodeError)).
Proof.
  intros Htext. unfold answer_with, json_response.
  destruct (voice_enabled request) as [[|]|]; unfold default; cbn [from_option];
    unfold Datatypes.id; by rewrite Htext.
Qed.

(** When the first reply asks for no tool (no tool calls, or an empty list
    of them), the provider is called once, the weather service is not
    consulted, and the answer is built from the text of that reply: the
    response with the text, and with the speech reference when voice is
    enabled; a 500 error when the text holds a surrogate, or is null with
    voice enabled. *)
Theorem answer_without_tool request reply rest :
  message request ≠ [] →
  chat_completions_create (initial_messages request) (Some tools)
    = Return (reply :: rest) →
  tool_calls reply = None ∨ tool_calls reply = Some [] →
  process_buddy_request request
  = ([Completion (initial_messages request) (Some tools)],
     answer_with request (content reply)).
Proof.
  intros Hmsg Hreply Htools.
  apply injective_projections; handler_start;
    (destruct (message request) as [|c cs] eqn:Hm; [done|]); cbn [str_truthy];
    rewrite ret_bind, call_bind, Hreply, lift_bind; cbn [fst snd first_choice];
    rewrite lift_bind; unfold answer_with;
    destruct Htools as [-> | ->]; rewrite ret_bind;
    by destruct (voice_enabled request) as [[|]|], (content reply);
      rewrite ?ret_bind, ?raise_bind.
Qed.

(** When the first submission raises, or returns no choice, the handler
    stops there with a 500 error that carries the text of the exception: one
    call has been made, and none follows. *)
Theorem provider_failure_is_500 request :
  message request ≠ [] →
  (∀ e, chat_completions_create (initial_messages request) (Some tools) = Raise e →
        process_buddy_request request
        = ([Completion (initial_messages request) (Some tools)],
           Raise (HTTPException 500 (str_exception e)))) ∧
  (chat_completions_create (initial_messages request) (Some tools) = Return [] →
   process_buddy_request request
   = ([Completion (initial_messages request) (Some tools)],
      Raise (HTTPException 500 (str_exception IndexError)))).
Proof.
  intros Hmsg. split; [intros e Hfail|intros Hfail];
    apply injective_projections; handler_start;
    (destruct (message request) as [|c cs] eqn:Hm; [done|]); cbn [str_truthy];
    by rewrite ret_bind, call_bind, Hfail, lift_bind.
Qed.

(** When the first reply asks for a tool and its argument text does not
    decode, or decodes to an object without latitude, or with a latitude and
    without longitude, the handler answers with a 500 error after the one
    submission: the weather service is not consulted and nothing is
    submitted again. *)
Theorem bad_tool_arguments_is_500 request reply rest tool_call more :
  message request ≠ [] →
  chat_completions_create (initial_messages request) (Some tools)
    = Return (reply :: rest) →
  tool_calls reply = Some (tool_call :: more) →
  let stopped e :=
    process_buddy_request request
    = ([Completion (initial_messages request) (Some tools)],
       Raise (HTTPException 500 (str_exception e))) in
  (∀ e, json_loads (function_arguments tool_call) = Raise e → stopped e) ∧
  (∀ args e,
     json_loads (function_arguments tool_call) = Return args →
     getitem args (u "latitude") = Raise e → stopped e) ∧
  (∀ args latitude e,
     json_loads (function_arguments tool_call) = Return args →
     getitem args (u "latitude") = Return latitude →
     getitem args (u "longitude") = Raise e → stopped e).
Proof.
  intros Hmsg Hreply Hcalls stopped. subst stopped. cbv beta.
  assert (∀ log r,
            (process_buddy_request request).1 = log →
            (process_buddy_request request).2 = r →
            process_buddy_request request = (log, r)) as Hpair.
  { intros log r <- <-. by destruct (process_buddy_request request). }
  split; [|split].
  - intros e Hargs. apply Hpair; handler_start;
      (destruct (message request) as [|c cs] eqn:Hm; [done|]); cbn [str_truthy];
      rewrite ret_bind, call_bind, Hreply, lift_bind; cbn [fst snd first_choice];
      by rewrite lift_bind, Hcalls, bind_assoc, Hargs, lift_bind.
  - intros args e Hargs Hlat. apply Hpair; handler_start;
      (destruct (message request) as [|c cs] eqn:Hm; [done|]); cbn [str_truthy];
      rewrite ret_bind, call_bind, Hreply, lift_bind; cbn [fst snd first_choice];
      by rewrite lift_bind, Hcalls, bind_assoc, Hargs, lift_bind, bind_assoc,
           Hlat, lift_bind.
  - intros args latitude e Hargs Hlat Hlon. apply Hpair; handler_start;
      (destruct (message request) as [|c cs] eqn:Hm; [done|]); cbn [str_truthy];
      rewrite ret_bind, call_bind, Hreply, lift_bind; cbn [fst snd first_choice];
      by rewrite lift_bind, Hcalls, bind_assoc, Hargs, lift_bind, bind_assoc,
           Hlat, lift_bind, bind_assoc, Hlon, lift_bind.
Qed.

(** After a tool round trip the answer depends on the reply to the second
    submission alone: a 500 error when that submission raises or returns no
    choice, and otherwise what its text gives (a 500 error again when it
    holds a surrogate, or is null with voice enabled), tool calls in it
    being ignored. *)
Theorem follow_up_decides_answer request reply rest tool_call more args latitude longitude :
  message request ≠ [] →
  chat_completions_create (initial_messages request) (Some tools)
    = Return (reply :: rest) →
  tool_calls reply = Some (tool_call :: more) →
  json_loads (function_arguments tool_call) = Return args →
  getitem args (u "latitude") = Return latitude →
  getitem args (u "longitude") = Return longitude →
  (process_buddy_request request).2
  = match
      chat_completions_create
        (initial_messages request
           ++ [ ModelDump reply;
                ToolResult (tool_call_id tool_call)
                  (str_float (default 25%float (open_meteo latitude longitude))) ])
        None
    with
    | Raise e => Raise (HTTPException 500 (str_exception e))
    | Return [] => Raise (HTTPException 500 (str_exception IndexError))
    | Return (final :: _) => answer_with request (content final)
    end.
Proof.
  intros Hmsg Hreply Hcalls Hargs Hlat Hlon. handler_start.
  destruct (message request) as [|c cs] eqn:Hm; [done|]. cbn [str_truthy].
  rewrite ret_bind, call_bind, Hreply, lift_bind. cbn [fst snd first_choice].
  rewrite lift_bind, Hcalls, bind_assoc, Hargs, lift_bind.
  rewrite bind_assoc, Hlat, lift_bind, bind_assoc, Hlon, lift_bind.
  unfold get_weather.
  rewrite !bind_assoc, call_bind. cbn [fst snd].
  rewrite !ret_bind, !bind_assoc, call_bind. cbn [fst snd].
  change (match open_meteo latitude longitude with
          | Some temperature => temperature
          | None => 25%float
          end) with (default 25%float (open_meteo latitude longitude)).
  destruct (chat_completions_create _ None) as [[|final others]|e];
    rewrite lift_bind; [done| |done].
  rewrite bind_assoc. cbn [first_choice]. rewrite lift_bind, !ret_bind.
  unfold answer_with.
  by destruct (voice_enabled request) as [[|]|], (content final);
    rewrite ?ret_bind, ?raise_bind.
Qed.

(** With a history, the text of the message and the context play no part:
    two requests with the same non-empty history and the same voice flag,
    each with some message, make the same calls and get the same answer. *)
Theorem history_overrides_message request request' entry entries :
  message request ≠ [] → message request' ≠ [] →
  history request = Some (entry :: entries) →
  history request' = Some (entry :: entries) →
  voice_enabled request = voice_enabled request' →
  process_buddy_request request = process_buddy_request request' ∧
  ∃ rest,
    (process_buddy_request request).1
    = Completion (FromHistory <$> entry :: entries) (Some tools) :: rest.
Proof.
  intros Hmsg Hmsg' Hhist Hhist' Hvoice.
  assert (initial_messages request = FromHistory <$> entry :: entries) as Hinit
    by (unfold initial_messages; by rewrite Hhist).
  assert (initial_messages request' = FromHistory <$> entry :: entries) as Hinit'
    by (unfold initial_messages; by rewrite Hhist').
  split.
  - unfold process_buddy_request, buddy_try. cbv zeta.
    rewrite Hinit, Hinit', Hvoice.
    destruct (message request) as [|c cs]; [done|].
    by destruct (message request') as [|c' cs'].
  - handler_start. destruct (message request) as [|c cs]; [done|].
    cbn [str_truthy]. rewrite ret_bind, call_bind, Hinit. by eexists.
Qed.

(** Without a history, a supplied non-empty context is sent as it is, at
    the end of the user message, and the knowledge base plays no part. *)
Theorem supplied_context_is_sent request c cs :
  message request ≠ [] →
  context request = Some (c :: cs) →
  history request = None ∨ history request = Some [] →
  ∃ rest,
    (process_buddy_request request).1
    = Completion
        [ RoleContent (u "system") persona;
          RoleContent (u "user")
            (u "Oi Buddy! " ++ message request ++ newline ++ newline
               ++ u "Contexto:" ++ newline ++ c :: cs) ]
        (Some tools) :: rest.
Proof.
  intros Hmsg Hctx Hhist. handler_start.
  destruct (message request) as [|m ms] eqn:Hm; [done|]. cbn [str_truthy].
  rewrite ret_bind, call_bind. cbn [fst].
  unfold initial_messages at 1, context_of. rewrite Hm, Hctx.
  destruct Hhist as [-> | ->]; by eexists.
Qed.

End AssistantExtras.

(** With the texts of the examples, the empty message is answered with
    the detail "400: Mensagem vazia" under the status 500. *)
Example empty_message_detail :
  @process_buddy_request example_builtins (answers []) (pedido [] false)
  = ([], Raise (HTTPException 500 (u "400: Mensagem vazia"))).
Proof. by vm_compute. Qed.

(** A reply whose text is a lone surrogate is answered with a 500 error,
    after the one call to the provider. *)
Example surrogate_reply_is_500 :
  @process_buddy_request example_builtins (answers [55296%N]) (pedido (u "Oi") false)
  = ([Completion (@initial_messages example_builtins (pedido (u "Oi") false)) (Some tools)],
     Raise (HTTPException 500 (@str_exception example_builtins UnicodeEncodeError))).
Proof. by vm_compute. Qed.

Lemma answer_without_tool_witness :
  @process_buddy_request example_builtins (answers (u "Hello world")) (pedido (u "Oi") true)
  = ([Completion (@initial_messages example_builtins (pedido (u "Oi") true)) (Some tools)],
     Return {| response := Some (u "Hello world");
               audio_url := Some (u "/api/buddy/speech?text=Hello%20world") |}).
Proof.
  assert (message (pedido (u "Oi") true) ≠ []) as Hmsg by done.
  exact (@answer_without_tool example_builtins (answers (u "Hello world"))
           (pedido (u "Oi") true) _ [] Hmsg eq_refl (or_introl eq_refl)).
Defined.

Lemma provider_failure_is_500_witness :
  @process_buddy_request example_builtins (provider_down (APIError (u "timeout")))
    (pedido (u "Oi") false)
  = ([Completion (@initial_messages example_builtins (pedido (u "Oi") false)) (Some tools)],
     Raise (HTTPException 500 (u "timeout"))).
Proof.
  assert (message (pedido (u "Oi") false) ≠ []) as Hmsg by done.
  exact (proj1 (@provider_failure_is_500 example_builtins
                  (provider_down (APIError (u "timeout"))) (pedido (u "Oi") false) Hmsg)
           _ eq_refl).
Defined.

Lemma bad_tool_arguments_is_500_witness :
  @process_buddy_request example_builtins (asks_with_arguments (u "latitude=0"))
    (pedido (u "Oi") false)
  = ([Completion (@initial_messages example_builtins (pedido (u "Oi") false)) (Some tools)],
     Raise (HTTPException 500 [])).
Proof.
  assert (message (pedido (u "Oi") false) ≠ []) as Hmsg by done.
  exact (proj1 (@bad_tool_arguments_is_500 example_builtins
                  (asks_with_arguments (u "latitude=0")) (pedido (u "Oi") false)
                  _ [] _ [] Hmsg eq_refl eq_refl)
           JSONDecodeError eq_refl).
Defined.

Lemma follow_up_decides_answer_witness :
  (@process_buddy_request example_builtins (fails_at_follow_up (APIError (u "timeout")))
     (pedido (u "Oi") false)).2
  = Raise (HTTPException 500 (u "timeout")).
Proof.
  assert (message (pedido (u "Oi") false) ≠ []) as Hmsg by done.
  exact (@follow_up_decides_answer example_builtins
           (fails_at_follow_up (APIError (u "timeout"))) (pedido (u "Oi") false)
           _ [] _ [] _ _ _ Hmsg eq_refl eq_refl eq_refl eq_refl eq_refl).
Defined.

Lemma history_overrides_message_witness :
  @process_buddy_request example_builtins (answers (u "Hello world"))
    (pedido_com_historico (u "arte") None)
  = @process_buddy_request example_builtins (answers (u "Hello world"))
      (pedido_com_historico (u "IA quântica") (Some (u "Contexto fornecido"))).
Proof.
  assert (message (pedido_com_historico (u "arte") None) ≠ []) as Hmsg by done.
  assert (message (pedido_com_historico (u "IA quântica") (Some (u "Contexto fornecido")))
          ≠ []) as Hmsg' by done.
  exact (proj1 (@history_overrides_message example_builtins (answers (u "Hello world"))
                  (pedido_com_historico (u "arte") None)
                  (pedido_com_historico (u "IA quântica") (Some (u "Contexto fornecido")))
                  _ [] Hmsg Hmsg' eq_refl eq_refl eq_refl)).
Defined.

Lemma supplied_context_is_sent_witness :
  ∃ rest,
    (@process_buddy_request example_builtins (answers (u "Hello world"))
       {| message := u "arte"; context := Some (u "Contexto fornecido");
          history := Some []; voice_enabled := None |}).1
    = Completion
        [ RoleContent (u "system") persona;
          RoleContent (u "user")
            (u "Oi Buddy! " ++ u "arte" ++ newline ++ newline
               ++ u "Contexto:" ++ newline ++ u "Contexto fornecido") ]
        (Some tools) :: rest.
Proof.
  assert (u "arte" ≠ []) as Hmsg by done.
  exact (@supplied_context_is_sent example_builtins (answers (u "Hello world"))
           {| message := u "arte"; context := Some (u "Contexto fornecido");
              history := Some []; voice_enabled := None |}
           _ _ Hmsg eq_refl (or_intror eq_refl)).
Defined.

(** * Further properties of the context search and of the speech reference *)

Section ContextSearch.
Context `{Builtins}.

Lemma split_from_blank palavra s :
  Forall (fun c => isspace c = true) s →
  split_from palavra s = match palavra with [] => [] | _ => [rev palavra] end.
Proof.
  revert palavra. induction s as [|c s IH]; intros palavra Hs; [done|].
  apply Forall_cons in Hs as [Hc Hs]. simpl. rewrite Hc, (IH [] Hs).
  by destruct palavra.
Qed.

Lemma split_from_app palavra a c b :
  isspace c = true →
  split_from palavra (a ++ c :: b) = split_from palavra a ++ split b.
Proof.
  intros Hc. revert palavra. induction a as [|x a IH]; intros palavra; simpl.
  - rewrite Hc. by destruct palavra.
  - destruct (isspace x).
    + destruct palavra; simpl; by rewrite IH.
    + apply IH.
Qed.

Lemma relevant_more_words a c b doc :
  isspace c = true →
  relevant (a ++ c :: b) doc = relevant a doc || relevant b doc.
Proof.
  intros Hc. unfold relevant, split.
  by rewrite (split_from_app [] a c b Hc), existsb_app.
Qed.

Lemma filter_sublist_impl {A} (P Q : A → bool) (l : list A) :
  (∀ x, P x → Q x) →
  filter (fun x => P x) l `sublist_of` filter (fun x => Q x) l.
Proof.
  intros HPQ. induction l as [|x l IH]; [done|].
  rewrite !filter_cons.
  destruct (decide (P x)) as [HP|HP].
  - rewrite decide_True by auto. by constructor.
  - destruct (decide (Q x)); [by constructor|done].
Qed.

(** A message without a word (empty, or made of white space only) finds
    nothing: the search answers with the marker. *)
Theorem blank_message_finds_nothing preferencia_usuario :
  Forall (fun c => isspace c = true) preferencia_usuario →
  buscar_conteudo_relevante preferencia_usuario = nenhuma_informacao.
Proof.
  intros Hblank. unfold buscar_conteudo_relevante, split.
  by rewrite (split_from_blank [] _ Hblank).
Qed.

(** The search keeps the entries of the knowledge base that pass the test
    of the source, and words only add: every entry kept for a message is
    kept, in the same order, for the message followed or preceded by white
    space and further words, and an entry is kept for the longer message
    exactly when it is kept for one of the two parts. *)
Theorem more_words_keep_entries a c b :
  isspace c = true →
  (∀ m, buscar_conteudo_relevante m
        = match filter (fun doc => relevant m doc) base_conhecimento with
          | [] => nenhuma_informacao
          | resultados => join newline resultados
          end) ∧
  (∀ doc, relevant (a ++ c :: b) doc = relevant a doc || relevant b doc) ∧
  filter (fun doc => relevant a doc) base_conhecimento
    `sublist_of` filter (fun doc => relevant (a ++ c :: b) doc) base_conhecimento ∧
  filter (fun doc => relevant b doc) base_conhecimento
    `sublist_of` filter (fun doc => relevant (a ++ c :: b) doc) base_conhecimento.
Proof.
  intros Hc. split.
  { intros m. unfold buscar_conteudo_relevante. cbv zeta.
    change (fun doc => Is_true (existsb _ (split m))) with (fun doc => Is_true (relevant m doc)).
    by destruct (filter _ _). }
  split; [intros doc; by apply relevant_more_words|].
  split; apply filter_sublist_impl; intros doc Hdoc;
    rewrite (relevant_more_words a c b doc Hc); apply orb_True; auto.
Qed.

(** The context that goes into the prompt is never empty: a supplied one
    is used only when it is not empty, and the search answers with at least
    one entry or with the marker. *)
Theorem context_never_empty request : context_of request ≠ [].
Proof.
  unfold context_of. destruct (context request) as [[|c cs]|]; [|done|].
  all: unfold buscar_conteudo_relevante;
    set (resultados := filter _ base_conhecimento);
    assert (Forall (fun doc => doc ≠ []) resultados) as Hne
      by (apply Forall_forall; intros doc Hdoc;
          apply list_elem_of_filter in Hdoc as [_ Hdoc];
          revert doc Hdoc; apply Forall_forall; by repeat constructor);
    destruct resultados as [|doc [|doc' rest]]; [done| |];
    apply Forall_cons in Hne as [Hdoc _]; simpl; [done|];
    by destruct doc.
Qed.

End ContextSearch.

Lemma blank_message_finds_nothing_witness :
  @buscar_conteudo_relevante example_builtins (u "   ") = nenhuma_informacao.
Proof. apply blank_message_finds_nothing. by repeat constructor. Defined.

Lemma more_words_keep_entries_witness :
  filter (fun doc => @relevant example_builtins (u "museus") doc) base_conhecimento
    `sublist_of`
  filter (fun doc => @relevant example_builtins (u "museus e música") doc) base_conhecimento.
Proof.
  exact (proj1 (proj2 (proj2
           (@more_words_keep_entries example_builtins (u "museus") 32%N (u "e música")
              eq_refl)))).
Defined.

Section SpeechReference.

Lemma plain_spec c :
  plain c = true →
  (32 ≤ c ∧ c < 1114112 ∧ c ≠ 35 ∧ c ≠ 37 ∧ c ≠ 38 ∧ c ≠ 43)%N.
Proof.
  unfold plain. rewrite !andb_true_iff, !negb_true_iff, !orb_false_iff.
  rewrite N.leb_le, N.ltb_lt, !N.eqb_neq. tauto.
Qed.

Lemma take_until_absent c s :
  Forall (fun x => x ≠ c) s → take_until c s = s.
Proof.
  induction s as [|x s IH]; [done|]. intros Hs.
  apply Forall_cons in Hs as [Hx Hs]. simpl.
  apply N.eqb_neq in Hx. by rewrite Hx, IH.
Qed.

Lemma fields_from_single field s :
  Forall (fun x => x ≠ 38%N) s → fields_from field s = [rev field ++ s].
Proof.
  revert field. induction s as [|x s IH]; intros field Hs; simpl.
  - by rewrite app_nil_r.
  - apply Forall_cons in Hs as [Hx Hs]. apply N.eqb_neq in Hx.
    rewrite Hx, IH by done. simpl. by rewrite <- app_assoc.
Qed.

Lemma unquote_plus_pass bytes rest :
  Forall (fun x => x ≠ 43%N ∧ x ≠ 37%N) bytes →
  unquote_plus (bytes ++ rest) = bytes ++ unquote_plus rest.
Proof.
  induction bytes as [|x bytes IH]; [done|]. intros Hb.
  apply Forall_cons in Hb as [[H43 H37] Hb].
  apply N.eqb_neq in H43, H37. cbn [app unquote_plus].
  by rewrite H43, H37, IH.
Qed.

(** The bytes of a code point that is not a space: none of them is one of
    the four characters a query string gives a meaning to, and decoding
    them gives the code point back. *)
Lemma utf8_encode_plain c :
  plain c = true →
  Forall (fun x => x ≠ 35 ∧ x ≠ 38 ∧ x ≠ 43 ∧ x ≠ 37)%N (utf8_encode [c]) ∧
  ∀ rest, utf8_decode (utf8_encode [c] ++ rest) = c :: utf8_decode rest.
Proof.
  intros Hc. pose proof Hc as Hsur. apply plain_spec in Hc.
  unfold utf8_encode. cbn [flat_map]. rewrite app_nil_r.
  destruct (c <? 128)%N eqn:H1; [|destruct (c <? 2048)%N eqn:H2;
                                   [|destruct (c <? 65536)%N eqn:H3]].
  - split; [repeat constructor; lia|]. intros rest. cbn [app utf8_decode].
    by rewrite H1.
  - apply N.ltb_ge in H1. apply N.ltb_lt in H2.
    split; [repeat constructor; divmod|]. intros rest. cbn [app utf8_decode].
    replace (192 + c / 64 <? 128)%N with false by (symmetry; apply N.ltb_ge; divmod).
    replace (192 + c / 64 <? 224)%N with true by (symmetry; apply N.ltb_lt; divmod).
    f_equal. divmod.
  - apply N.ltb_ge in H2. apply N.ltb_lt in H3.
    split; [repeat constructor; divmod|]. intros rest. cbn [app utf8_decode].
    replace (224 + c / 4096 <? 128)%N with false by (symmetry; apply N.ltb_ge; divmod).
    replace (224 + c / 4096 <? 224)%N with false by (symmetry; apply N.ltb_ge; divmod).
    replace (224 + c / 4096 <? 240)%N with true by (symmetry; apply N.ltb_lt; divmod).
    f_equal. divmod.
  - apply N.ltb_ge in H3.
    split; [repeat constructor; divmod|]. intros rest. cbn [app utf8_decode].
    replace (240 + c / 262144 <? 128)%N with false by (symmetry; apply N.ltb_ge; divmod).
    replace (240 + c / 262144 <? 224)%N with false by (symmetry; apply N.ltb_ge; divmod).
    replace (240 + c / 262144 <? 240)%N with false by (symmetry; apply N.ltb_ge; divmod).
    f_equal. divmod.
Qed.

Lemma utf8_round_trip t :
  Forall (fun c => plain c = true) t → utf8_decode (utf8_encode t) = t.
Proof.
  induction t as [|c t IH]; [done|]. intros Ht.
  apply Forall_cons in Ht as [Hc Ht].
  change (utf8_encode (c :: t)) with (utf8_encode ([c] ++ t)).
  unfold utf8_encode at 1. rewrite flat_map_app. fold (utf8_encode [c]) (utf8_encode t).
  rewrite (proj2 (utf8_encode_plain c Hc)). by rewrite IH.
Qed.

(** The bytes of the escaped text: no [#] and no [&] among them, and
    unquoting them gives the bytes of the text. *)
Lemma escaped_bytes t :
  Forall (fun c => plain c = true) t →
  Forall (fun x => x ≠ 35 ∧ x ≠ 38)%N (utf8_encode (replace_space t)) ∧
  unquote_plus (utf8_encode (replace_space t)) = utf8_encode t.
Proof.
  induction t as [|c t IH]; [done|]. intros Ht.
  apply Forall_cons in Ht as [Hc Ht]. destruct (IH Ht) as [IH1 IH2].
  change (c :: t) with ([c] ++ t).
  unfold replace_space, utf8_encode. rewrite !flat_map_app.
  fold (replace_space [c]) (replace_space t).
  fold (utf8_encode (replace_space [c])) (utf8_encode (replace_space t))
       (utf8_encode [c]) (utf8_encode t).
  destruct (decide (c = 32%N)) as [->|Hne].
  - split.
    + apply Forall_app. split; [by repeat constructor|done].
    + change (utf8_encode (replace_space [32%N])) with [37; 50; 48]%N.
      change (utf8_encode [32%N]) with [32%N]. simpl. by rewrite IH2.
  - assert (replace_space [c] = [c]) as ->.
    { unfold replace_space. simpl. apply N.eqb_neq in Hne. by rewrite Hne. }
    destruct (utf8_encode_plain c Hc) as [Hbytes _]. split.
    + apply Forall_app. split; [|done].
      eapply Forall_impl; [exact Hbytes|]. simpl. tauto.
    + rewrite unquote_plus_pass, IH2; [done|].
      eapply Forall_impl; [exact Hbytes|]. simpl. tauto.
Qed.

(** For a text without control characters and without [#], [%], [&] and
    [+], the speech reference carries the text: the [text] value of its
    query string, read as the server reads it, is the text itself. *)
Theorem speech_reference_round_trip t :
  Forall (fun c => plain c = true) t →
  query_value (u "text") (u "/api/buddy/speech?text=" ++ replace_space t) = Some t.
Proof.
  intros Ht. destruct (escaped_bytes t Ht) as [Hclean Hunquote].
  unfold query_value.
  replace (utf8_encode (u "/api/buddy/speech?text=" ++ replace_space t))
    with (utf8_encode (u "/api/buddy/speech?text=") ++ utf8_encode (replace_space t))
    by (unfold utf8_encode; by rewrite flat_map_app).
  revert Hclean Hunquote. generalize (utf8_encode (replace_space t)). intros bytes Hclean Hunquote.
  change (drop_through 63 (utf8_encode (u "/api/buddy/speech?text=") ++ bytes))
    with (Some ([116; 101; 120; 116; 61]%N ++ bytes)).
  cbv iota beta.
  assert (Forall (fun x => x ≠ 35 ∧ x ≠ 38)%N ([116; 101; 120; 116; 61]%N ++ bytes))
    as Hfield by (apply Forall_app; split; [by repeat constructor|done]).
  rewrite take_until_absent
    by (eapply Forall_impl; [exact Hfield|]; simpl; tauto).
  rewrite fields_from_single
    by (eapply Forall_impl; [exact Hfield|]; simpl; tauto).
  cbn [rev app field_value take_until drop_through N.eqb Pos.eqb unquote_plus].
  change (utf8_encode (u "text")) with [116; 101; 120; 116]%N.
  rewrite bool_decide_eq_true_2 by done. cbn [default].
  change (Datatypes.id bytes) with bytes. rewrite Hunquote. simpl. by rewrite utf8_round_trip.
Qed.

End SpeechReference.

Section SpokenAnswer.
Context `{Builtins} `{Collaborators}.

Lemma replace_space_no_space t : Forall (fun c => c ≠ 32%N) (replace_space t).
Proof.
  unfold replace_space. induction t as [|c t IH]; simpl; [done|].
  apply Forall_app. split; [|done].
  destruct (c =? 32)%N eqn:Hc.
  - by repeat constructor.
  - apply N.eqb_neq in Hc. by repeat constructor.
Qed.

(** When the handler answers with voice enabled and the final text has no
    control character and none of [#], [%], [&] and [+], the answer has a
    speech reference, the reference has no space in it, and its [text]
    query value, read as the server reads it, is the final text. *)
Theorem spoken_text_is_carried request answer t :
  (process_buddy_request request).2 = Return answer →
  voice_enabled request = Some true →
  response answer = Some t →
  Forall (fun c => plain c = true) t →
  ∃ url,
    audio_url answer = Some url ∧
    Forall (fun c => c ≠ 32%N) url ∧
    query_value (u "text") url = Some t.
Proof.
  intros Hanswer Hvoice Htext Hplain.
  pose proof (speech_reference request answer Hanswer) as Hurl.
  rewrite Hvoice, Htext in Hurl.
  exists (u "/api/buddy/speech?text=" ++ replace_space t).
  split; [done|]. split.
  - apply Forall_app. split; [|apply replace_space_no_space].
    apply (bool_decide_unpack _). by vm_compute.
  - by apply speech_reference_round_trip.
Qed.

End SpokenAnswer.

Lemma speech_reference_witness :
  audio_url {| response := Some (u "Hello world");
               audio_url := Some (u "/api/buddy/speech?text=Hello%20world") |}
  = Some (u "/api/buddy/speech?text=" ++ replace_space (u "Hello world")).
Proof.
  exact (@speech_reference example_builtins (answers (u "Hello world"))
           (pedido (u "Oi") true) _ eq_refl).
Defined.

Lemma spoken_text_is_carried_witness :
  ∃ url,
    Some (u "/api/buddy/speech?text=Olá,%20mundo!") = Some url ∧
    Forall (fun c => c ≠ 32%N) url ∧
    query_value (u "text") url = Some (u "Olá, mundo!").
Proof.
  assert (Forall (fun c => plain c = true) (u "Olá, mundo!")) as Hplain
    by (apply (bool_decide_unpack _); by vm_compute).
  exact (@spoken_text_is_carried example_builtins (answers (u "Olá, mundo!"))
           (pedido (u "Oi") true) _ _ eq_refl eq_refl eq_refl Hplain).
Defined.

Section Identifiers.
Implicit Types (s : Store) (w : write).


End Identifiers.

(** * The text of the data file *)

Section Numbers.

Lemma uint_of_text_text d : uint_of_text (uint_text d) = Some d.
Proof. induction d; simpl; [done|by rewrite IHd..]. Qed.

Lemma uint_text_in_scalar d : forallb in_scalar (uint_text d) = true.
Proof. induction d; simpl; [done|by rewrite IHd..]. Qed.

Lemma uint_text_head d c rest : uint_text d = c :: rest → (c =? 45)%N = false.
Proof. destruct d; simpl; [done|by intros [= <- _]..]. Qed.

Lemma uint_text_nonempty d : d ≠ Decimal.Nil → uint_text d ≠ [].
Proof. by destruct d. Qed.

Lemma to_uint_normal p : Decimal.unorm (Pos.to_uint p) = Pos.to_uint p.
Proof.
  rewrite <- DecimalPos.Unsigned.to_of, DecimalPos.Unsigned.of_to. done.
Qed.

Lemma json_digits_text d :
  Decimal.unorm d = d → (length (uint_text d) <=? int_max_str_digits)%nat = true →
  json_digits (uint_text d) = Some d.
Proof.
  intros Hd Hlimit. unfold json_digits. rewrite Hlimit, uint_of_text_text.
  by destruct (Decimal.uint_eq_dec _ _).
Qed.

Lemma int_of_text_text n : convertible n = true → int_of_text (int_text n) = Some n.
Proof.
  unfold int_of_text, int_text, convertible. intros Hlimit.
  assert (Hn : ∃ d, Decimal.unorm d = d ∧ d ≠ Decimal.Nil
                    ∧ (Z.to_int n = Decimal.Pos d ∨ Z.to_int n = Decimal.Neg d)).
  { destruct n as [|p|p]; simpl.
    - exists (Decimal.D0 Decimal.Nil). by eauto.
    - exists (Pos.to_uint p).
      by eauto using to_uint_normal, DecimalPos.Unsigned.to_uint_nonnil.
    - exists (Pos.to_uint p).
      by eauto using to_uint_normal, DecimalPos.Unsigned.to_uint_nonnil. }
  destruct Hn as (d & Hd & Hnil & [Hn|Hn]); rewrite Hn in Hlimit |- *;
    pose proof (json_digits_text d Hd Hlimit) as Hdigits.
  - destruct (uint_text d) as [|c rest] eqn:Ht; [by apply uint_text_nonempty in Ht|].
    rewrite (uint_text_head _ _ _ Ht), Hdigits.
    simpl. f_equal. change (Z.of_int (Decimal.Pos d) = n).
    by rewrite <- Hn, DecimalZ.of_to.
  - replace (45 =? 45)%N with true by done.
    rewrite Hdigits. simpl. f_equal.
    change (Z.of_int (Decimal.Neg d) = n).
    by rewrite <- Hn, DecimalZ.of_to.
Qed.

Lemma int_text_in_scalar n : int_text n ≠ [] ∧ forallb in_scalar (int_text n) = true.
Proof.
  unfold int_text. destruct (Z.to_int n) as [d|d] eqn:Hn.
  - split; [|apply uint_text_in_scalar]. apply uint_text_nonempty.
    destruct n; simpl in Hn; [| |done]; injection Hn as <-;
      [done|apply DecimalPos.Unsigned.to_uint_nonnil].
  - split; [done|]. simpl. apply uint_text_in_scalar.
Qed.

End Numbers.

Section Lexer.

Lemma tokens_space c text : is_space c = true → tokens Between (c :: text) = tokens Between text.
Proof. intros Hc. simpl. by rewrite Hc. Qed.

Lemma tokens_line level text : tokens Between (line level ++ text) = tokens Between text.
Proof.
  unfold line, newline. generalize (2 * level)%nat. intros n.
  rewrite <- app_assoc. cbn [app]. rewrite tokens_space by done.
  induction n as [|n IH]; [done|].
  cbn [repeat app]. by rewrite tokens_space.
Qed.

Lemma punctuation_not_space c t : punctuation c = Some t → is_space c = false ∧ (c =? 34)%N = false.
Proof.
  unfold punctuation.
  repeat (destruct (c =? _)%N eqn:?He;
          [apply N.eqb_eq in He; by subst c|clear He]).
  done.
Qed.

Lemma tokens_punctuation c t text :
  punctuation c = Some t → tokens Between (c :: text) = push t (tokens Between text).
Proof.
  intros Hc. pose proof (punctuation_not_space _ _ Hc) as [Hs _].
  simpl. by rewrite Hs, Hc.
Qed.

Lemma hex_digit_char d : (d < 16)%N → hex_digit (hex_char d) = Some d.
Proof.
  intros Hd. unfold hex_digit, hex_char. destruct (d <? 10)%N eqn:H10.
  - apply N.ltb_lt in H10.
    replace (48 <=? 48 + d)%N with true by (symmetry; apply N.leb_le; lia).
    replace (48 + d <=? 57)%N with true by (symmetry; apply N.leb_le; lia).
    simpl. f_equal. lia.
  - apply N.ltb_ge in H10.
    replace (87 + d <=? 57)%N with false by (symmetry; apply N.leb_gt; lia).
    replace (87 + d <=? 70)%N with false by (symmetry; apply N.leb_gt; lia).
    replace (97 <=? 87 + d)%N with true by (symmetry; apply N.leb_le; lia).
    replace (87 + d <=? 102)%N with true by (symmetry; apply N.leb_le; lia).
    rewrite !andb_false_r. simpl. f_equal. lia.
Qed.

Lemma add_escaped_control c acc : (c < 32)%N → add_escaped c acc = c :: acc.
Proof.
  intros Hc. destruct acc as [|high rest]; [done|]. simpl.
  replace (56320 <=? c)%N with false by (symmetry; apply N.leb_gt; lia).
  by rewrite andb_false_r.
Qed.

Lemma tokens_escape c acc text :
  tokens (InString acc) (escape c ++ text) = tokens (InString (c :: acc)) text.
Proof.
  unfold escape.
  destruct (c =? 34)%N eqn:He; [apply N.eqb_eq in He; by subst c|].
  destruct (c =? 92)%N eqn:He0; [apply N.eqb_eq in He0; by subst c|].
  destruct (c =? 10)%N eqn:He1; [apply N.eqb_eq in He1; by subst c|].
  destruct (c =? 13)%N eqn:He2; [apply N.eqb_eq in He2; by subst c|].
  destruct (c =? 9)%N eqn:He3; [apply N.eqb_eq in He3; by subst c|].
  destruct (c =? 8)%N eqn:He4; [apply N.eqb_eq in He4; by subst c|].
  destruct (c =? 12)%N eqn:He5; [apply N.eqb_eq in He5; by subst c|].
  destruct (c <? 32)%N eqn:Hc.
  - apply N.ltb_lt in Hc. cbn [app tokens]. simpl (92 =? _)%N. simpl (117 =? _)%N.
    cbn iota. change (hex_digit 48) with (Some 0%N).
    rewrite !hex_digit_char by divmod. cbn iota.
    replace (4096 * 0 + 256 * 0 + 16 * (c / 16) + c mod 16)%N with c by divmod.
    by rewrite add_escaped_control.
  - cbn [app tokens]. by rewrite He, He0, Hc.
Qed.

Lemma tokens_in_string s acc text :
  tokens (InString acc) (flat_map escape s ++ 34%N :: text)
  = push (Str (rev acc ++ s)) (tokens Between text).
Proof.
  revert acc. induction s as [|c s IH]; intros acc.
  - simpl. by rewrite app_nil_r.
  - cbn [flat_map]. rewrite <- app_assoc, tokens_escape, IH. simpl.
    by rewrite <- app_assoc.
Qed.

Lemma tokens_str_text s text :
  tokens Between (str_text s ++ text) = push (Str s) (tokens Between text).
Proof.
  unfold str_text. rewrite <- !app_assoc. cbn [app tokens].
  change (is_space 34) with false. change (punctuation 34) with (@None token).
  cbn iota. change (34 =? 34)%N with true. cbn iota.
  by rewrite tokens_in_string.
Qed.

Lemma in_scalar_spec c :
  in_scalar c = true → is_space c = false ∧ punctuation c = None ∧ (c =? 34)%N = false.
Proof.
  unfold in_scalar. destruct (punctuation c); [done|].
  destruct (is_space c), (c =? 34)%N; by auto.
Qed.

Lemma tokens_delimited acc text :
  delimited text →
  tokens (InScalar acc) text = push (Scalar (rev acc)) (tokens Between text).
Proof.
  destruct text as [|c r]; [done|]. unfold delimited, in_scalar. intros Hc.
  cbn [tokens]. destruct (is_space c); [done|].
  destruct (punctuation c); [done|].
  by destruct (c =? 34)%N.
Qed.

Lemma tokens_in_scalar t acc text :
  forallb in_scalar t = true → delimited text →
  tokens (InScalar acc) (t ++ text) = push (Scalar (rev acc ++ t)) (tokens Between text).
Proof.
  intros Ht Htext. revert acc Ht. induction t as [|c t IH]; intros acc Ht.
  - rewrite app_nil_r. by apply tokens_delimited.
  - cbn [forallb] in Ht. apply andb_prop in Ht as [Hc Ht].
    apply in_scalar_spec in Hc as (Hs & Hp & Hq).
    cbn [app tokens]. rewrite Hs, Hp, Hq, IH by done. simpl.
    by rewrite <- app_assoc.
Qed.

Lemma tokens_scalar t text :
  t ≠ [] → forallb in_scalar t = true → delimited text →
  tokens Between (t ++ text) = push (Scalar t) (tokens Between text).
Proof.
  intros Hne Ht Htext. destruct t as [|c t]; [done|].
  cbn [forallb] in Ht. apply andb_prop in Ht as [Hc Ht].
  apply in_scalar_spec in Hc as (Hs & Hp & Hq).
  cbn [app tokens]. rewrite Hs, Hp, Hq. by rewrite tokens_in_scalar.
Qed.

End Lexer.

Section Parser.
Context `{JsonFloats}.

Lemma Any_nested_ind (P : Any → Prop) :
  P ANone → (∀ b, P (ABool b)) → (∀ n, P (AInt n)) → (∀ x, P (AFloat x)) →
  (∀ s, P (AStr s)) →
  (∀ items, Forall P items → P (AList items)) →
  (∀ members, Forall (fun kv => P kv.2) members → P (ADict members)) →
  ∀ v, P v.
Proof.
  intros Hnone Hbool Hint Hfloat Hstr Hlist Hdict. fix IH 1.
  intros [|b|n|x|s|items|members]; [done..| |].
  - apply Hlist. induction items as [|v items IHitems]; constructor; [apply IH|done].
  - apply Hdict. induction members as [|[k v] members IHmembers]; constructor;
      [apply IH|done].
Qed.

Lemma reading_push open p t ts :
  push t ts ≫= parse open p
  = match step open p t with
    | Some (open', p') => ts ≫= parse open' p'
    | None => None
    end.
Proof. destruct ts as [ts|]; simpl; by destruct (step open p t) as [[open' p']|]. Qed.

Lemma reading_line open p level text :
  reading open p (line level ++ text) = reading open p text.
Proof. unfold reading. by rewrite tokens_line. Qed.

Lemma reading_space open p c text :
  is_space c = true → reading open p (c :: text) = reading open p text.
Proof. intros Hc. unfold reading. by rewrite tokens_space. Qed.

Lemma reading_punctuation open p c t text :
  punctuation c = Some t →
  reading open p (c :: text)
  = match step open p t with
    | Some (open', p') => reading open' p' text
    | None => None
    end.
Proof.
  intros Hc. unfold reading. by rewrite (tokens_punctuation _ _ _ Hc), reading_push.
Qed.

Lemma reading_scalar open first t v text :
  t ≠ [] → forallb in_scalar t = true → scalar t = Some v → delimited text →
  reading open (Value first) (t ++ text)
  = match deliver v open with
    | Some (open', p') => reading open' p' text
    | None => None
    end.
Proof.
  intros Hne Ht Hv Htext. unfold reading.
  rewrite tokens_scalar, reading_push by done. destruct first; simpl; by rewrite Hv.
Qed.

Lemma reading_string open first s text :
  reading open (Value first) (str_text s ++ text)
  = match deliver (AStr s) open with
    | Some (open', p') => reading open' p' text
    | None => None
    end.
Proof. unfold reading. rewrite tokens_str_text, reading_push. by destruct first. Qed.

Lemma reading_key members outer first k text :
  reading (InObject members None :: outer) (Key first) (str_text k ++ u ": " ++ text)
  = reading (InObject members (Some k) :: outer) (Value false) text.
Proof.
  unfold reading at 1. rewrite tokens_str_text, reading_push.
  replace (step (InObject members None :: outer) (Key first) (Str k))
    with (Some (InObject members (Some k) :: outer, ColonNext)) by (by destruct first).
  change (u ": " ++ text) with (58%N :: 32%N :: text).
  fold (reading (InObject members (Some k) :: outer) ColonNext (58%N :: 32%N :: text)).
  rewrite (reading_punctuation _ _ _ Colon) by done. simpl step; cbn iota.
  by rewrite reading_space.
Qed.

Lemma scalar_int n : convertible n = true → scalar (int_text n) = Some (AInt n).
Proof.
  intros Hn.
  assert (Hother : ∀ t, int_of_text t = None → int_text n ≠ t).
  { intros t Ht <-. by rewrite int_of_text_text in Ht. }
  unfold scalar. rewrite !bool_decide_eq_false_2 by (by apply Hother).
  by rewrite int_of_text_text.
Qed.

Lemma printable_items v items :
  printable (AList (v :: items)) → printable v ∧ printable (AList items).
Proof.
  unfold printable. cbn [floats_in ints_in flat_map]. rewrite forallb_app.
  intros [[Hv Hitems]%Forall_app [Hn Hints]%andb_prop]. by auto.
Qed.

Lemma printable_members k v members :
  printable (ADict ((k, v) :: members)) → printable v ∧ printable (ADict members).
Proof.
  unfold printable. cbn [floats_in ints_in flat_map]. rewrite forallb_app.
  intros [[Hv Hitems]%Forall_app [Hn Hints]%andb_prop]. by auto.
Qed.

Lemma reading_items level outer rest items :
  Forall reads items → printable (AList items) → items ≠ [] → delimited rest →
  ∀ acc first,
    reading (InArray acc :: outer) (Value first)
      (join (u "," ++ line (S level)) (map (dumps (S level)) items)
         ++ line level ++ u "]" ++ rest)
    = match deliver (AList (rev acc ++ items)) outer with
      | Some (open', p') => reading open' p' rest
      | None => None
      end.
Proof.
  intros Hitems Hprint Hne Hrest.
  induction Hitems as [|v items Hv Hitems IH]; [done|]. clear Hne.
  apply printable_items in Hprint as [Hpv Hprint]. intros acc first.
  destruct items as [|v' items].
  - cbn [map join]. rewrite (Hv Hpv) by done. simpl deliver; cbn iota.
    rewrite reading_line. change (u "]" ++ rest) with (93%N :: rest).
    rewrite (reading_punctuation _ _ _ RBracket) by done. done.
  - change (join ?sep (map ?f (v :: v' :: items)))
      with (f v ++ sep ++ join sep (map f (v' :: items))).
    rewrite <- !app_assoc. rewrite (Hv Hpv) by done. simpl deliver; cbn iota.
    change (u "," ++ ?t) with (44%N :: t).
    rewrite (reading_punctuation _ _ _ Comma) by done. simpl step; cbn iota.
    rewrite reading_line, IH by done.
    cbn [rev]. by rewrite <- app_assoc.
Qed.

Lemma reading_members level outer rest members :
  Forall (fun kv => reads kv.2) members → printable (ADict members) → members ≠ [] →
  delimited rest →
  ∀ acc first,
    reading (InObject acc None :: outer) (Key first)
      (join (u "," ++ line (S level))
         (map (fun kv => str_text kv.1 ++ u ": " ++ dumps (S level) kv.2) members)
         ++ line level ++ u "}" ++ rest)
    = match deliver (ADict (rev acc ++ members)) outer with
      | Some (open', p') => reading open' p' rest
      | None => None
      end.
Proof.
  intros Hmembers Hprint Hne Hrest.
  induction Hmembers as [|[k v] members Hv Hmembers IH]; [done|]. clear Hne.
  apply printable_members in Hprint as [Hpv Hprint]. intros acc first.
  destruct members as [|kv' members].
  - cbn [map join fst snd]. rewrite <- !app_assoc. rewrite reading_key.
    rewrite (Hv Hpv) by done. simpl deliver; cbn iota.
    rewrite reading_line. change (u "}" ++ rest) with (125%N :: rest).
    rewrite (reading_punctuation _ _ _ RBrace) by done. done.
  - change (join ?sep (map ?f ((k, v) :: kv' :: members)))
      with (f (k, v) ++ sep ++ join sep (map f (kv' :: members))).
    cbn beta. cbn [fst snd]. rewrite <- !app_assoc. rewrite reading_key.
    rewrite (Hv Hpv) by done. simpl deliver; cbn iota.
    change (u "," ++ ?t) with (44%N :: t).
    rewrite (reading_punctuation _ _ _ Comma) by done. simpl step; cbn iota.
    rewrite reading_line, IH by done.
    cbn [rev]. by rewrite <- app_assoc.
Qed.

Lemma step_bracket open first :
  step open (Value first) LBracket = Some (InArray [] :: open, Value true).
Proof. by destruct first. Qed.

Lemma step_brace open first :
  step open (Value first) LBrace = Some (InObject [] None :: open, Key true).
Proof. by destruct first. Qed.

Lemma reading_dumps v : reads v.
Proof.
  induction v as [|b|n|x|s|items IH|members IH] using Any_nested_ind;
    intros Hprint level open first rest Hrest.
  - by apply reading_scalar.
  - destruct b; by apply reading_scalar.
  - cbn [dumps]. destruct Hprint as [_ Hn]. cbn [ints_in forallb] in Hn.
    apply andb_prop in Hn as [Hn _].
    apply reading_scalar; [apply int_text_in_scalar..|by apply scalar_int|done].
  - cbn [dumps]. destruct Hprint as [(Hne & Hchars & _ & Hx)%Forall_inv _].
    by apply reading_scalar.
  - apply reading_string.
  - destruct items as [|v items].
    + change (dumps level (AList []) ++ rest) with (91%N :: 93%N :: rest).
      rewrite (reading_punctuation _ _ _ LBracket), step_bracket by done.
      by rewrite (reading_punctuation _ _ _ RBracket).
    + cbn [dumps]. rewrite <- !app_assoc. change (u "[" ++ ?t) with (91%N :: t).
      rewrite (reading_punctuation _ _ _ LBracket), step_bracket by done.
      rewrite reading_line. by rewrite reading_items.
  - destruct members as [|kv members].
    + change (dumps level (ADict []) ++ rest) with (123%N :: 125%N :: rest).
      rewrite (reading_punctuation _ _ _ LBrace), step_brace by done.
      by rewrite (reading_punctuation _ _ _ RBrace).
    + cbn [dumps]. rewrite <- !app_assoc. change (u "{" ++ ?t) with (123%N :: t).
      rewrite (reading_punctuation _ _ _ LBrace), step_brace by done.
      rewrite reading_line. by rewrite reading_members.
Qed.

Lemma loads_dumps v : printable v → loads (dumps 0 v) = Some v.
Proof.
  intros Hv. pose proof (reading_dumps v Hv 0%nat [] false [] I) as Hread.
  rewrite app_nil_r in Hread. unfold reading in Hread. unfold loads.
  destruct (tokens Between (dumps 0 v)) as [ts|]; [|done]. exact Hread.
Qed.

End Parser.

Section Codec.

Ltac holds := symmetry; rewrite ?andb_true_iff, ?N.leb_le, ?N.ltb_lt; divmod.
Ltac fails :=
  symmetry; first [apply N.ltb_ge | apply N.leb_gt
                  | apply andb_false_iff; first [left; apply N.leb_gt; divmod
                                                | right; apply N.leb_gt; divmod]];
  divmod.

Lemma scalar_value_spec c :
  scalar_value c = true → (c < 1114112 ∧ (c < 55296 ∨ 57343 < c))%N.
Proof.
  unfold scalar_value, is_surrogate. intros [Hmax Hsur]%andb_prop.
  apply N.ltb_lt in Hmax. split; [done|].
  apply negb_true_iff, andb_false_iff in Hsur as [Hsur|Hsur];
    apply N.leb_gt in Hsur; by auto.
Qed.

Lemma decode_utf8_encode text :
  forallb scalar_value text = true → decode_utf8 (utf8_encode text) = Some text.
Proof.
  unfold utf8_encode. induction text as [|c text IH]; [done|].
  cbn [forallb flat_map]. intros [Hc Ht]%andb_prop. specialize (IH Ht).
  apply scalar_value_spec in Hc as [Hmax Hsur].
  destruct (c <? 128)%N eqn:H1; [|destruct (c <? 2048)%N eqn:H2;
                                   [|destruct (c <? 65536)%N eqn:H3]].
  - cbn [app decode_utf8]. by rewrite H1, IH.
  - apply N.ltb_ge in H1. apply N.ltb_lt in H2. cbn [app decode_utf8].
    replace (192 + c / 64 <? 128)%N with false by fails.
    replace ((194 <=? 192 + c / 64) && (192 + c / 64 <=? 223))%N with true by holds.
    replace (continuation (128 + c mod 64)) with true by (unfold continuation; holds).
    rewrite IH. simpl. do 2 f_equal. divmod.
  - apply N.ltb_ge in H2. apply N.ltb_lt in H3. cbn [app decode_utf8].
    replace (224 + c / 4096 <? 128)%N with false by fails.
    replace ((194 <=? 224 + c / 4096) && (224 + c / 4096 <=? 223))%N with false by fails.
    replace ((224 <=? 224 + c / 4096) && (224 + c / 4096 <=? 239))%N with true by holds.
    replace (continuation (128 + (c / 64) mod 64)) with true
      by (unfold continuation; holds).
    replace (continuation (128 + c mod 64)) with true by (unfold continuation; holds).
    cbv zeta.
    replace ((224 + c / 4096 - 224) * 4096 + (128 + (c / 64) mod 64 - 128) * 64
             + (128 + c mod 64 - 128))%N with c by divmod.
    replace (2048 <=? c)%N with true by holds.
    replace (is_surrogate c) with false
      by (unfold is_surrogate; destruct Hsur; fails).
    rewrite IH. done.
  - apply N.ltb_ge in H3. cbn [app decode_utf8].
    replace (240 + c / 262144 <? 128)%N with false by fails.
    replace ((194 <=? 240 + c / 262144) && (240 + c / 262144 <=? 223))%N
      with false by fails.
    replace ((224 <=? 240 + c / 262144) && (240 + c / 262144 <=? 239))%N
      with false by fails.
    replace ((240 <=? 240 + c / 262144) && (240 + c / 262144 <=? 244))%N
      with true by holds.
    replace (continuation (128 + (c / 4096) mod 64)) with true
      by (unfold continuation; holds).
    replace (continuation (128 + (c / 64) mod 64)) with true
      by (unfold continuation; holds).
    replace (continuation (128 + c mod 64)) with true by (unfold continuation; holds).
    cbv zeta.
    replace ((240 + c / 262144 - 240) * 262144 + (128 + (c / 4096) mod 64 - 128) * 4096
             + (128 + (c / 64) mod 64 - 128) * 64 + (128 + c mod 64 - 128))%N
      with c by divmod.
    replace (65536 <=? c)%N with true by holds.
    replace (c <? 1114112)%N with true by holds.
    rewrite IH. done.
Qed.

Lemma scalar_value_encodable text :
  forallb scalar_value text = true → encodable text = true.
Proof.
  unfold encodable. induction text as [|c text IH]; [done|]. cbn [forallb].
  intros [Hc Ht]%andb_prop. rewrite IH by done.
  unfold scalar_value in Hc. apply andb_prop in Hc as [_ ->]. done.
Qed.

End Codec.

Section Text.
Context `{JsonFloats}.

Lemma scalar_value_ascii t :
  forallb (fun c => c <? 128)%N t = true → forallb scalar_value t = true.
Proof.
  induction t as [|c t IH]; [done|]. cbn [forallb]. intros [Hc Ht]%andb_prop.
  rewrite IH by done. apply N.ltb_lt in Hc. unfold scalar_value, is_surrogate.
  replace (c <? 1114112)%N with true by (symmetry; apply N.ltb_lt; lia).
  replace (55296 <=? c)%N with false by (symmetry; apply N.leb_gt; lia). done.
Qed.

Lemma uint_text_ascii d : forallb (fun c => c <? 128)%N (uint_text d) = true.
Proof. induction d; simpl; [done|by rewrite ?IHd..]. Qed.

Lemma int_text_scalar_values n : forallb scalar_value (int_text n) = true.
Proof.
  apply scalar_value_ascii. unfold int_text.
  destruct (Z.to_int n); simpl; apply uint_text_ascii.
Qed.

Lemma hex_char_ascii d : (d < 16)%N → (hex_char d <? 128)%N = true.
Proof. intros Hd. unfold hex_char. apply N.ltb_lt. destruct (d <? 10)%N; cbn iota; lia. Qed.

Lemma escape_scalar_values c :
  scalar_value c = true → forallb scalar_value (escape c) = true.
Proof.
  intros Hc. unfold escape.
  repeat (destruct (c =? _)%N; [done|]).
  destruct (c <? 32)%N eqn:Hlow; [|simpl; by rewrite Hc].
  apply N.ltb_lt in Hlow. apply scalar_value_ascii. cbn [forallb].
  rewrite !hex_char_ascii by divmod. done.
Qed.

Lemma escaped_scalar_values s :
  forallb scalar_value s = true → forallb scalar_value (flat_map escape s) = true.
Proof.
  induction s as [|c s IH]; [done|]. cbn [forallb flat_map].
  intros [Hc Hs]%andb_prop. by rewrite forallb_app, IH, escape_scalar_values.
Qed.

Lemma str_text_scalar_values s :
  forallb scalar_value s = true → forallb scalar_value (str_text s) = true.
Proof.
  intros Hs. unfold str_text. by rewrite !forallb_app, escaped_scalar_values.
Qed.

Lemma line_scalar_values level : forallb scalar_value (line level) = true.
Proof.
  unfold line, newline. generalize (2 * level)%nat. intros n.
  rewrite forallb_app. cbn [forallb andb]. change (scalar_value 10) with true.
  cbn [andb]. by induction n.
Qed.

Lemma join_scalar_values sep parts :
  forallb scalar_value sep = true →
  Forall (fun part => forallb scalar_value part = true) parts →
  forallb scalar_value (join sep parts) = true.
Proof.
  intros Hsep Hparts. induction Hparts as [|part parts Hpart Hparts IH]; [done|].
  destruct parts as [|part' parts]; [done|].
  change (join sep (part :: part' :: parts)) with (part ++ sep ++ join sep (part' :: parts)).
  by rewrite !forallb_app, Hpart, Hsep, IH.
Qed.

Lemma dumps_scalar_values v :
  unicode v → printable v → ∀ level, forallb scalar_value (dumps level v) = true.
Proof.
  intros Hstrings [Hfloats _]. revert Hstrings Hfloats. unfold unicode.
  induction v as [|b|n|x|s|items IH|members IH] using Any_nested_ind;
    intros Hstrings Hfloats level.
  - done.
  - by destruct b.
  - apply int_text_scalar_values.
  - apply Forall_inv in Hfloats as (_ & _ & Hascii & _). by apply scalar_value_ascii.
  - apply str_text_scalar_values. by apply Forall_inv in Hstrings.
  - destruct items as [|v items]; [done|]. cbn [dumps].
    rewrite !forallb_app, !line_scalar_values.
    change (forallb scalar_value (u "[")) with true.
    change (forallb scalar_value (u "]")) with true.
    rewrite join_scalar_values; [done|by rewrite forallb_app, line_scalar_values|].
    cbn [strings_in floats_in] in Hstrings, Hfloats.
    generalize dependent (v :: items). clear v items. intros items IH Hstrings Hfloats.
    induction IH as [|v items Hv _ IH]; [done|]. cbn [flat_map map] in *.
    apply Forall_app in Hstrings as [Hs Hstrings].
    apply Forall_app in Hfloats as [Hf Hfloats]. constructor; by auto.
  - destruct members as [|kv members]; [done|]. cbn [dumps].
    rewrite !forallb_app, !line_scalar_values.
    change (forallb scalar_value (u "{")) with true.
    change (forallb scalar_value (u "}")) with true.
    rewrite join_scalar_values; [done|by rewrite forallb_app, line_scalar_values|].
    cbn [strings_in floats_in] in Hstrings, Hfloats.
    generalize dependent (kv :: members). clear kv members.
    intros members IH Hstrings Hfloats.
    induction IH as [|[k v] members Hv _ IH]; [done|]. cbn [flat_map map fst snd] in *.
    apply Forall_cons in Hstrings as [Hk Hstrings].
    apply Forall_app in Hstrings as [Hs Hstrings].
    apply Forall_app in Hfloats as [Hf Hfloats]. constructor; [|by auto].
    rewrite !forallb_app, str_text_scalar_values, Hv by done. done.
Qed.

End Text.

Section DataFile.
Context `{JsonFloats}.

Lemma of_dict_as_dict p : of_dict (as_dict p) = Some p.
Proof.
  destruct p as [i [t d c x [im|] [br|] [mo|] [ye|]]]; by vm_compute.
Qed.

Lemma mapM_of_dict products : mapM of_dict (map as_dict products) = Some products.
Proof.
  induction products as [|p products IH]; [done|].
  cbn [map mapM]. by rewrite of_dict_as_dict, IH.
Qed.

Lemma dict_get_document a b :
  dict_get (u "products") [(u "products", a); (u "counter", b)] = Some a
  ∧ dict_get (u "counter") [(u "products", a); (u "counter", b)] = Some b.
Proof. by vm_compute. Qed.

Lemma file_of_document products counter :
  file_of (document products counter) = Some (Object (Some products) (Some counter)).
Proof.
  unfold file_of, document.
  destruct (dict_get_document (AList (map as_dict products)) (AInt counter)) as [-> ->].
  by rewrite mapM_of_dict.
Qed.

Lemma floats_in_as_dict p : floats_in (as_dict p) = [price p].
Proof. by destruct p as [i [t d c x [im|] [br|] [mo|] [ye|]]]. Qed.

Lemma ints_in_as_dict p : ints_in (as_dict p) = option_list (year p) ++ [id p].
Proof. by destruct p as [i [t d c x [im|] [br|] [mo|] [ye|]]]. Qed.

Lemma printable_document products counter :
  Forall storable products → convertible counter = true →
  printable (document products counter).
Proof.
  intros Hproducts Hcounter. unfold printable, document.
  cbn [floats_in ints_in flat_map snd]. rewrite !app_nil_r, forallb_app.
  cbn [forallb]. rewrite Hcounter.
  induction Hproducts as [|p products (_ & Hp & Hid & Hyear) _ [IHf IHn]]; [done|].
  cbn [map flat_map]. rewrite floats_in_as_dict, ints_in_as_dict.
  split; [by constructor|]. apply andb_prop in IHn as [IHn _].
  rewrite !forallb_app, Hyear, IHn. cbn [forallb]. by rewrite Hid.
Qed.

Lemma unicode_dict members :
  Forall (fun kv => forallb scalar_value kv.1 = true ∧ unicode kv.2) members →
  unicode (ADict members).
Proof.
  unfold unicode. cbn [strings_in].
  induction 1 as [|[k v] members [Hk Hv] _ IH]; [done|].
  cbn [flat_map fst snd]. constructor; [done|]. by apply Forall_app.
Qed.

Lemma unicode_list items : Forall unicode items → unicode (AList items).
Proof.
  unfold unicode. cbn [strings_in].
  induction 1 as [|v items Hv _ IH]; [done|]. cbn [flat_map]. by apply Forall_app.
Qed.

Lemma unicode_as_dict p :
  Forall (fun s => forallb scalar_value s = true) (strings_of p) → unicode (as_dict p).
Proof.
  destruct p as [i [t d c x im br mo ye]]. unfold strings_of. cbn -[option_list].
  rewrite !Forall_cons, !Forall_app.
  intros (Ht & Hd & Hc & Him & Hbr & Hmo).
  assert (Htext : ∀ s, forallb scalar_value s = true → unicode (AStr s)).
  { intros s Hs. by constructor. }
  assert (Hoptional : ∀ o, Forall (fun s => forallb scalar_value s = true) (option_list o) →
                           unicode (optional AStr o)).
  { intros [s|] Hs; [|constructor]. apply Htext. by apply Forall_inv in Hs. }
  apply unicode_dict.
  repeat (apply Forall_cons; split; [split; [by vm_compute|]|]); try apply Forall_nil;
    cbn [snd]; auto.
  all: unfold unicode; cbn; try destruct ye; constructor.
Qed.

Lemma unicode_document products counter :
  Forall storable products → unicode (document products counter).
Proof.
  intros Hproducts. apply unicode_dict.
  apply Forall_cons; split; [split; [by vm_compute|]|].
  2: { apply Forall_cons; split; [split; [by vm_compute|]|by apply Forall_nil].
       unfold unicode; cbn; constructor. }
  cbn [snd]. apply unicode_list. induction Hproducts as [|p products [Hp _] _ IH]; [done|].
  cbn [map]. constructor; [by apply unicode_as_dict|done].
Qed.

Lemma read_file_dumped products counter :
  Forall storable products → convertible counter = true →
  dumped products counter = Some (utf8_encode (dumps 0 (document products counter)))
  ∧ read_file (utf8_encode (dumps 0 (document products counter)))
    = Some (Object (Some products) (Some counter)).
Proof.
  intros Hproducts Hcounter.
  pose proof (printable_document products counter Hproducts Hcounter) as Hprint.
  pose proof (dumps_scalar_values _ (unicode_document products counter Hproducts)
                Hprint 0%nat) as Htext.
  split.
  - unfold dumped, encode_utf8. destruct Hprint as [_ ->].
    by rewrite scalar_value_encodable.
  - unfold read_file. rewrite decode_utf8_encode by done.
    rewrite loads_dumps by done. apply file_of_document.
Qed.

Lemma within_refl {A} (x : list A) : within x x.
Proof. exists [], []. by rewrite app_nil_r. Qed.

Lemma within_trans {A} (x y z : list A) : within x y → within y z → within x z.
Proof.
  intros (a & b & ->) (c & d & ->). exists (c ++ a), (b ++ d).
  by rewrite <- !app_assoc.
Qed.

Lemma within_app_l {A} (x y z : list A) : within x y → within x (y ++ z).
Proof. intros (a & b & ->). exists a, (b ++ z). by rewrite <- !app_assoc. Qed.

Lemma within_app_r {A} (x y z : list A) : within x z → within x (y ++ z).
Proof. intros (a & b & ->). exists (y ++ a), b. by rewrite <- !app_assoc. Qed.

Lemma within_join sep parts x : x ∈ parts → within x (join sep parts).
Proof.
  induction parts as [|part parts IH]; [by intros ?%elem_of_nil|].
  intros [->|Hx]%elem_of_cons.
  - destruct parts; [apply within_refl|]. apply within_app_l, within_refl.
  - destruct parts as [|part' parts]; [by apply elem_of_nil in Hx|].
    change (join sep (part :: part' :: parts))
      with (part ++ sep ++ join sep (part' :: parts)).
    by apply within_app_r, within_app_r, IH.
Qed.

Lemma elem_of_map {A B} (f : A → B) (l : list A) (x : A) : x ∈ l → f x ∈ map f l.
Proof. induction 1; cbn [map]; by constructor. Qed.

Lemma within_item level items v :
  v ∈ items → within (dumps (S level) v) (dumps level (AList items)).
Proof.
  intros Hv. destruct items as [|v' items]; [by apply elem_of_nil in Hv|].
  cbn [dumps]. apply within_app_r, within_app_r, within_app_l, within_join.
  by apply elem_of_map.
Qed.

Lemma within_member level members k v :
  (k, v) ∈ members → within (dumps (S level) v) (dumps level (ADict members)).
Proof.
  intros Hv. destruct members as [|kv members]; [by apply elem_of_nil in Hv|].
  cbn [dumps]. apply within_app_r, within_app_r, within_app_l.
  eapply within_trans; [|apply within_join, elem_of_map, Hv].
  cbn [fst snd]. apply within_app_r, within_app_r, within_refl.
Qed.

Lemma strings_of_members p s :
  s ∈ strings_of p → ∃ k members, as_dict p = ADict members ∧ (k, AStr s) ∈ members.
Proof.
  destruct p as [i [t d c x im br mo ye]]. unfold strings_of, as_dict.
  cbn -[option_list]. intros Hs.
  rewrite !elem_of_cons, !elem_of_app in Hs.
  destruct Hs as [->|[->|[->|[Hs|[Hs|Hs]]]]];
    (eexists _, _; split; [reflexivity|]).
  - apply elem_of_cons; left. done.
  - do 1 (apply elem_of_cons; right). apply elem_of_cons; left. done.
  - do 2 (apply elem_of_cons; right). apply elem_of_cons; left. done.
  - destruct im as [s'|]; [|by apply elem_of_nil in Hs].
    apply list_elem_of_singleton in Hs as ->.
    do 4 (apply elem_of_cons; right). apply elem_of_cons; left. done.
  - destruct br as [s'|]; [|by apply elem_of_nil in Hs].
    apply list_elem_of_singleton in Hs as ->.
    do 5 (apply elem_of_cons; right). apply elem_of_cons; left. done.
  - destruct mo as [s'|]; [|by apply elem_of_nil in Hs].
    apply list_elem_of_singleton in Hs as ->.
    do 6 (apply elem_of_cons; right). apply elem_of_cons; left. done.
Qed.

Lemma within_document products counter p s :
  p ∈ products → s ∈ strings_of p →
  within (str_text s) (dumps 0 (document products counter)).
Proof.
  intros Hp Hs. apply strings_of_members in Hs as (k & members & Hdict & Hs).
  eapply within_trans; [apply (within_member 2 members k (AStr s) Hs)|].
  rewrite <- Hdict.
  eapply within_trans;
    [apply (within_item 1 (map as_dict products)), elem_of_map, Hp|].
  apply (within_member 0 _ (u "products")). apply elem_of_cons. by left.
Qed.

Lemma str_text_verbatim s :
  forallb verbatim s = true → str_text s = [34%N] ++ s ++ [34%N].
Proof.
  intros Hs. unfold str_text. do 2 f_equal.
  induction s as [|c s IH]; [done|]. cbn [forallb flat_map] in *.
  apply andb_prop in Hs as [Hc Hs]. rewrite IH by done.
  unfold verbatim in Hc. apply andb_prop in Hc as [[Hlow Hq]%andb_prop Hb].
  apply negb_true_iff in Hlow, Hq, Hb. unfold escape. rewrite Hq, Hb, Hlow.
  repeat (destruct (c =? _)%N eqn:?He;
          [apply N.eqb_eq in He; by subst c|clear He]).
  done.
Qed.

Lemma within_utf8_encode x text : within x text → within (utf8_encode x) (utf8_encode text).
Proof.
  intros (a & b & ->). exists (utf8_encode a), (utf8_encode b).
  unfold utf8_encode. by rewrite !flat_map_app.
Qed.

End DataFile.

Section SaveThenLoad.
Context `{JsonFloats}.

Lemma handle_saves w r s a :
  (handle w r s).1 = Return a →
  data_file (handle w r s).2
  = save_products w (products_db (handle w r s).2) (product_id_counter (handle w r s).2)
      (data_file s).
Proof.
  destruct r as [product|product_id product|product_id]; simpl.
  - done.
  - unfold update_product. by destruct (list_find _ _) as [[i q]|].
  - unfold delete_product. by destruct (list_find _ _) as [[i q]|].
Qed.

(** C7. When the strings of the products hold no surrogate, their prices
    are floats that Python reads back from what it writes, and the integers
    are within the limit of digits, [json.dump] does not raise and
    [save_products] writes the UTF-8 bytes of the document with the two
    keys; what [json.load] reads from these bytes is the file that the
    store keeps, and it loads as the products, in their order, and the
    counter that were saved; every string of a product that has no quote,
    backslash nor control character stands in the file between quotes, as
    the UTF-8 bytes of its own code points; and after a request that a
    handler answers, the file loads as the catalog in memory. *)
Theorem save_then_load (products : list ProductInDB) (counter : Z) :
  Forall storable products → convertible counter = true →
  dumped products counter = Some (utf8_encode (dumps 0 (document products counter)))
  ∧ write_of products counter = Written
  ∧ read_file (utf8_encode (dumps 0 (document products counter)))
    = Some (Object (Some products) (Some counter))
  ∧ (∀ d, save_products (write_of products counter) products counter d
          = Some (Object (Some products) (Some counter)))
  ∧ save_load_agree products counter
  ∧ (∀ p s,
       p ∈ products → s ∈ strings_of p → forallb verbatim s = true →
       dumps 0 (AStr s) = [34%N] ++ s ++ [34%N]
       ∧ within (utf8_encode ([34%N] ++ s ++ [34%N]))
           (utf8_encode (dumps 0 (document products counter))))
  ∧ (∀ r s a,
       (handle (write_of products counter) r s).1 = Return a →
       products_db (handle (write_of products counter) r s).2 = products →
       product_id_counter (handle (write_of products counter) r s).2 = counter →
       load_products (data_file (handle (write_of products counter) r s).2)
       = (products, counter)).
Proof.
  intros Hproducts Hcounter.
  destruct (read_file_dumped products counter Hproducts Hcounter) as [Hdump Hread].
  assert (Hwrite : write_of products counter = Written).
  { unfold write_of. by rewrite Hdump. }
  split_and!; [done..| | | |].
  - intros d. by rewrite Hwrite.
  - intros d. by rewrite Hwrite.
  - intros p s Hp Hs Hverbatim. split; [by apply str_text_verbatim|].
    rewrite <- str_text_verbatim by done.
    by apply within_utf8_encode, (within_document _ _ p).
  - intros r s a Ha Hdb Hid. rewrite (handle_saves _ _ _ _ Ha), Hdb, Hid.
    by rewrite Hwrite.
Qed.

End SaveThenLoad.

Lemma save_then_load_witness :
  Forall (@storable example_floats) [product_dict chip 1; product_dict roupa 2]
  ∧ @read_file example_floats
      (utf8_encode
         (@dumps example_floats 0 (document [product_dict chip 1; product_dict roupa 2] 3)))
    = Some (Object (Some [product_dict chip 1; product_dict roupa 2]) (Some 3))
  ∧ @save_load_agree example_floats [product_dict chip 1; product_dict roupa 2] 3.
Proof.
  assert (Hproducts : Forall (@storable example_floats)
                        [product_dict chip 1; product_dict roupa 2]).
  { repeat (apply Forall_cons; split; [|]); [..|by apply Forall_nil].
    - split; [apply (bool_decide_unpack _); by vm_compute|].
      repeat split; by vm_compute.
    - split; [apply (bool_decide_unpack _); by vm_compute|].
      repeat split; by vm_compute. }
  split; [done|].
  pose proof (@save_then_load example_floats
                [product_dict chip 1; product_dict roupa 2] 3 Hproducts eq_refl)
    as (_ & _ & Hread & _ & Hagree & _).
  by split.
Defined.

(** C7, as stated, fails on a product whose title is a lone surrogate
    (a request body or a data file gives one with the escape [\ud800]):
    [json.dump] raises on it, the file is left cut short and loads as the
    empty catalog with the counter 1. *)
Lemma save_then_load_surrogate :
  @dumped example_floats [lone_surrogate] 2 = None
  ∧ (∀ d, load_products
            (save_products (@write_of example_floats [lone_surrogate] 2)
               [lone_surrogate] 2 d) = ([], 1))
  ∧ ¬ @save_load_agree example_floats [lone_surrogate] 2.
Proof.
  assert (Hdump : @dumped example_floats [lone_surrogate] 2 = None) by (by vm_compute).
  assert (Hwrite : @write_of example_floats [lone_surrogate] 2 = DumpRaises).
  { unfold write_of. by rewrite Hdump. }
  split; [done|]. split; [intros d; by rewrite Hwrite|].
  intros Hagree. specialize (Hagree None). by rewrite Hwrite in Hagree.
Qed.

(** The text of the empty catalog, a string with an accent as it is
    written, and its bytes. *)
Example empty_catalog_text :
  @dumps example_floats 0 (document [] 1)
  = u "{" ++ newline ++ u "  " ++ [34%N] ++ u "products" ++ [34%N] ++ u ": [],"
      ++ newline ++ u "  " ++ [34%N] ++ u "counter" ++ [34%N] ++ u ": 1"
      ++ newline ++ u "}".
Proof. by vm_compute. Qed.

Example accent_is_written_as_it_is :
  @dumps example_floats 0 (AStr (u "térmico")) = [34%N] ++ u "térmico" ++ [34%N]
  ∧ utf8_encode (u "é") = [195; 169]%N
  ∧ @dumps example_floats 0 (AStr [9%N; 233%N; 34%N]) = [34; 92; 116; 233; 92; 34; 34]%N.
Proof. by vm_compute. Qed.

(** Files that [load_products] reads as the empty catalog: an empty file, a
    document that is not an object, a document cut short (what is left of
    the file when [json.dump] raises on the first title); and a file
    without the key [counter], which is [file_without_counter]. *)
Example files_as_loaded :
  @read_file example_floats [] = Some Unreadable
  ∧ @read_file example_floats (utf8_encode (u "[]")) = Some Unreadable
  ∧ @read_file example_floats
      (utf8_encode
         (u "{" ++ newline ++ u "  " ++ [34%N] ++ u "products" ++ [34%N] ++ u ": ["
            ++ newline ++ u "    {" ++ newline ++ u "      "
            ++ [34%N] ++ u "title" ++ [34%N] ++ u ": "))
    = Some Unreadable
  ∧ @read_file example_floats
      (utf8_encode
         (u "{" ++ [34%N] ++ u "products" ++ [34%N] ++ u ": ["
            ++ @dumps example_floats 2 (as_dict (product_dict chip 1)) ++ u "]}"))
    = Some (Object (Some [product_dict chip 1]) None)
  ∧ file_without_counter = Some (Object (Some [product_dict chip 1]) None).
Proof. by vm_compute. Qed.
